(** * The timer and sleep queue of devices/timer.c

    A shallow embedding of the 8254 timer driver: the tick counter, the
    ordered list of sleeping threads, [timer_sleep], the tick handler
    [timer_interrupt], the busy-wait calibration and the real-time sleep
    helper.  C integers are [Z] with the wrap-around of their width written
    out; the kernel's global variables are the fields of one record that the
    functions pass along. *)

From Stdlib Require Import ZArith Lia Bool.
From stdpp Require Import base tactics functions list sorting.
From Equations Require Import Equations.

Local Open Scope Z_scope.

(** ** Machine integers *)

Definition INT64_MIN : Z := - 2 ^ 63.
Definition INT64_MAX : Z := 2 ^ 63 - 1.

(** [int64_t] arithmetic as two's complement machines carry it out. *)
Definition wrap64 (z : Z) : Z := (z + 2 ^ 63) mod 2 ^ 64 - 2 ^ 63.

(** [unsigned] is 32 bits wide, [uint16_t] 16 bits. *)
Definition wrap32 (z : Z) : Z := z mod 2 ^ 32.
Definition wrap16 (z : Z) : Z := z mod 2 ^ 16.

Definition in_int64 (z : Z) : Prop := INT64_MIN <= z <= INT64_MAX.

(** ** Kernel state *)

(** A thread is named by the address of its [struct thread]. *)
Definition tid := nat.

Inductive thread_status :=
  | THREAD_RUNNING
  | THREAD_READY
  | THREAD_BLOCKED
  | THREAD_DYING.

Inductive intr_level := INTR_OFF | INTR_ON.

Global Instance thread_status_eq_dec : EqDecision thread_status.
Proof. solve_decision. Defined.
Global Instance intr_level_eq_dec : EqDecision intr_level.
Proof. solve_decision. Defined.

(** The fields of [struct thread] the timer reads or writes. *)
Record thread := mkThread {
  status : thread_status;
  wake_tick : Z
}.

(** The file's static variables ([ticks], [loops_per_tick], [sleeping_list])
    and the parts of the rest of the kernel the timer touches: the thread
    structures, the running thread, the interrupt level, the bytes written
    to I/O ports and the registered interrupt vectors.  [unblocked] records
    the calls of [thread_unblock], oldest first. *)
Record kernel := mkKernel {
  ticks : Z;
  loops_per_tick : Z;
  sleeping_list : list tid;
  threads : tid -> thread;
  running : tid;
  level : intr_level;
  outb_log : list (Z * Z);
  intr_vectors : list Z;
  unblocked : list tid
}.

Definition set_ticks (v : Z) (k : kernel) : kernel :=
  mkKernel v (loops_per_tick k) (sleeping_list k) (threads k) (running k)
           (level k) (outb_log k) (intr_vectors k) (unblocked k).
Definition set_loops_per_tick (v : Z) (k : kernel) : kernel :=
  mkKernel (ticks k) v (sleeping_list k) (threads k) (running k)
           (level k) (outb_log k) (intr_vectors k) (unblocked k).
Definition set_sleeping_list (v : list tid) (k : kernel) : kernel :=
  mkKernel (ticks k) (loops_per_tick k) v (threads k) (running k)
           (level k) (outb_log k) (intr_vectors k) (unblocked k).
Definition set_threads (v : tid -> thread) (k : kernel) : kernel :=
  mkKernel (ticks k) (loops_per_tick k) (sleeping_list k) v (running k)
           (level k) (outb_log k) (intr_vectors k) (unblocked k).
Definition set_running (v : tid) (k : kernel) : kernel :=
  mkKernel (ticks k) (loops_per_tick k) (sleeping_list k) (threads k) v
           (level k) (outb_log k) (intr_vectors k) (unblocked k).
Definition set_level (v : intr_level) (k : kernel) : kernel :=
  mkKernel (ticks k) (loops_per_tick k) (sleeping_list k) (threads k)
           (running k) v (outb_log k) (intr_vectors k) (unblocked k).
Definition set_outb_log (v : list (Z * Z)) (k : kernel) : kernel :=
  mkKernel (ticks k) (loops_per_tick k) (sleeping_list k) (threads k)
           (running k) (level k) v (intr_vectors k) (unblocked k).
Definition set_intr_vectors (v : list Z) (k : kernel) : kernel :=
  mkKernel (ticks k) (loops_per_tick k) (sleeping_list k) (threads k)
           (running k) (level k) (outb_log k) v (unblocked k).
Definition set_unblocked (v : list tid) (k : kernel) : kernel :=
  mkKernel (ticks k) (loops_per_tick k) (sleeping_list k) (threads k)
           (running k) (level k) (outb_log k) (intr_vectors k) v.

(** [t->status = s] and [t->wake_tick = w]. *)
Definition set_status (t : tid) (s : thread_status) (k : kernel) : kernel :=
  set_threads (<[t := mkThread s (wake_tick (threads k t))]> (threads k)) k.
Definition set_wake_tick (t : tid) (w : Z) (k : kernel) : kernel :=
  set_threads (<[t := mkThread (status (threads k t)) w]> (threads k)) k.

Definition status_of (k : kernel) (t : tid) : thread_status :=
  status (threads k t).
Definition wake_of (k : kernel) (t : tid) : Z := wake_tick (threads k t).

(** ** Collaborators outside devices/timer.c *)

(** Modelled from the spec: threads/interrupt.c is not part of the sources;
    [get_level()] of the interrupt controller. *)
Definition intr_get_level (k : kernel) : intr_level := level k.

(** Modelled from the spec: threads/interrupt.c is not part of the sources;
    [restore_interrupts(level)] of the interrupt controller.  The value is
    the level before the call. *)
Definition intr_set_level (l : intr_level) (k : kernel) : intr_level * kernel :=
  (level k, set_level l k).

(** Modelled from the spec: threads/interrupt.c is not part of the sources;
    [disable_interrupts()] of the interrupt controller, which gives back the
    prior level for the caller to remember. *)
Definition intr_disable (k : kernel) : intr_level * kernel :=
  intr_set_level INTR_OFF k.

(** Modelled from the spec: threads/interrupt.c is not part of the sources;
    [register_external_handler(vector, handler)] binds the handler to a
    fixed external interrupt vector. *)
Definition intr_register_ext (vec : Z) (k : kernel) : kernel :=
  set_intr_vectors (intr_vectors k ++ [vec]) k.

(** Modelled from the spec: threads/io.h is not part of the sources;
    programming the interval timer is writing bytes to its I/O ports.  One
    call writes one byte, the low eight bits of [data]. *)
Definition outb (port data : Z) (k : kernel) : kernel :=
  set_outb_log (outb_log k ++ [(port, data mod 2 ^ 8)]) k.

(** Modelled from the spec: threads/thread.c is not part of the sources;
    [current_thread()] of the scheduler. *)
Definition thread_current (k : kernel) : tid := running k.

(** Modelled from the spec: threads/thread.c is not part of the sources;
    [block_current()] blocks the current thread and releases the CPU.  The
    switch to the next thread is the separate step [schedule] below. *)
Definition thread_block (k : kernel) : kernel :=
  set_status (thread_current k) THREAD_BLOCKED k.

(** Modelled from the spec: threads/thread.c is not part of the sources;
    [unblock(thread)] makes a blocked thread ready.  The call is recorded in
    [unblocked]. *)
Definition thread_unblock (t : tid) (k : kernel) : kernel :=
  set_unblocked (unblocked k ++ [t]) (set_status t THREAD_READY k).

(** Modelled from the spec: threads/thread.c is not part of the sources;
    [tick_notify()] is the scheduler's preemption bookkeeping, which keeps
    none of the state modelled here. *)
Definition thread_tick (k : kernel) : kernel := k.

(** Modelled from the spec: threads/thread.c is not part of the sources; the
    scheduler gives the CPU to a ready thread [t]: the thread that was
    running, unless it blocked, becomes ready, and [t] continues with
    interrupts enabled as it had them when it gave up the CPU. *)
Definition schedule (t : tid) (k : kernel) : kernel :=
  let c := thread_current k in
  let k1 := if decide (status_of k c = THREAD_RUNNING)
            then set_status c THREAD_READY k else k in
  set_level INTR_ON (set_running t (set_status t THREAD_RUNNING k1)).

(** Modelled from the spec: lib/kernel/list.c is not part of the sources;
    the sleep queue is a sequence of threads, empty at first. *)
Definition list_init : list tid := [].

(** Modelled from the spec: lib/kernel/list.c is not part of the sources;
    the insertion puts the new element at the position that keeps the
    order: in front of the first element it is less than, hence behind all
    elements it is not less than. *)
Fixpoint list_insert_ordered (l : list tid) (elem : tid)
    (less : tid -> tid -> bool) : list tid :=
  match l with
  | [] => [elem]
  | e :: rest =>
      if less elem e then elem :: e :: rest
      else e :: list_insert_ordered rest elem less
  end.

(** Modelled from the spec: lib/kernel/list.c is not part of the sources;
    the removal unlinks one element and leaves the others in their order. *)
Fixpoint list_remove (elem : tid) (l : list tid) : list tid :=
  match l with
  | [] => []
  | e :: rest => if decide (e = elem) then rest else e :: list_remove elem rest
  end.

(** ** devices/timer.c *)

(** [timer_ticks]: the tick count, read with interrupts masked. *)
Definition timer_ticks (k : kernel) : Z * kernel :=
  let '(old_level, k1) := intr_disable k in
  let t := ticks k1 in
  let '(_, k2) := intr_set_level old_level k1 in
  (t, k2).

(** [timer_elapsed]: ticks since [then_]. *)
Definition timer_elapsed (then_ : Z) (k : kernel) : Z * kernel :=
  let '(t, k1) := timer_ticks k in (wrap64 (t - then_), k1).

(** [wake_up_cmp]: the order of the sleep queue, strict on [wake_tick]. *)
Definition wake_up_cmp (k : kernel) (a b : tid) : bool :=
  wake_tick (threads k a) <? wake_tick (threads k b).

(** [timer_sleep] from [intr_disable] to [thread_block]: interrupts stay
    masked, so this part runs without a tick in between.  [start] is the
    value [timer_ticks] returned on entry. *)
Definition timer_sleep_block (start n : Z) (k : kernel) : kernel :=
  let '(old_level, k1) := intr_disable k in
  let t := thread_current k1 in
  let k2 := set_wake_tick t (wrap64 (start + n)) k1 in
  let k3 := set_sleeping_list
              (list_insert_ordered (sleeping_list k2) t (wake_up_cmp k2)) k2 in
  thread_block k3.

(** [timer_sleep] up to the point where the caller has given up the CPU.
    The [intr_set_level (old_level)] that follows [thread_block] runs when
    the scheduler resumes the thread ([schedule]). *)
Definition timer_sleep (n : Z) (k : kernel) : kernel :=
  let '(start, k1) := timer_ticks k in
  if n <=? 0 then k1 else timer_sleep_block start n k1.

(** The loop of [timer_interrupt]: [e] is the cursor, the part of
    [sleeping_list] from the element it points to. *)
Fixpoint wake_loop (e : list tid) (k : kernel) : kernel :=
  match e with
  | [] => k
  | t :: next =>
      if wake_tick (threads k t) <=? fst (timer_ticks k)
      then wake_loop next
             (thread_unblock t
                (set_sleeping_list (list_remove t (sleeping_list k)) k))
      else k
  end.

(** [timer_interrupt]: count the tick, notify the scheduler, wake the due
    sleepers from the head of the queue. *)
Definition timer_interrupt (k : kernel) : kernel :=
  let k1 := set_ticks (wrap64 (ticks k + 1)) k in
  let k2 := thread_tick k1 in
  wake_loop (sleeping_list k2) k2.

(** Modelled from the spec: threads/interrupt.c is not part of the sources;
    the tick handler is invoked with interrupts already disabled, and the
    level of the interrupted code comes back when it returns. *)
Definition intr_entry (handler : kernel -> kernel) (k : kernel) : kernel :=
  let '(old_level, k1) := intr_disable k in
  snd (intr_set_level old_level (handler k1)).

(** A function of the file returns, or stops the kernel on a failed
    [ASSERT] or a division by zero; [OutOfFuel] is the model's own, for a
    loop cut short by its iteration bound. *)
Inductive result (A : Type) :=
  | Ret (a : A)
  | Panic
  | OutOfFuel.
Arguments Ret {A} a.
Arguments Panic {A}.
Arguments OutOfFuel {A}.

(** The loop of [busy_wait], [while (loops-- > 0) barrier ();].  The value
    is the number of times the body ran, counted up from [done].  The
    decrement that goes with the last, failing test writes a local variable
    nobody reads again. *)
Equations? busy_wait_from (loops : Z) (done : nat) : nat
    by wf (Z.to_nat loops) lt :=
  busy_wait_from loops done with decide (0 < loops) := {
    | left _ => busy_wait_from (wrap64 (loops - 1)) (S done)
    | right _ => done }.
Proof.
  unfold wrap64.
  pose proof (Z.mod_le (loops - 1 + 2 ^ 63) (2 ^ 64) ltac:(lia) ltac:(lia)).
  lia.
Qed.

(** [busy_wait]: the number of times the loop body runs. *)
Definition busy_wait (loops : Z) : nat := busy_wait_from loops 0.

(** The interval timer as the code meets it: spinning until the next tick
    arrives, and the number of tick interrupts that arrive while the body of
    [busy_wait] runs a given number of times. *)
Class Hardware (HW : Type) := {
  await_tick : HW -> HW;
  spin : nat -> HW -> nat * HW
}.

Section WithHardware.
Context {HW : Type} `{Hardware HW}.

(** The kernel's variables together with the state of the timer chip. *)
Definition machine : Type := kernel * HW.

(** One tick interrupt reaches [timer_interrupt]. *)
Definition tick_irq (k : kernel) : kernel := intr_entry timer_interrupt k.

(** [too_many_loops]: wait for a tick, run [loops] iterations, report
    whether the tick count changed meanwhile.  The first loop ends with the
    tick interrupt that changes [ticks].  [loops] is [unsigned] and converts
    to the [int64_t] parameter of [busy_wait] unchanged. *)
Definition too_many_loops (loops : Z) (m : machine) : bool * machine :=
  let '(k, h) := m in
  (* while (ticks == start) barrier (); *)
  let k1 := tick_irq k in
  let h1 := await_tick h in
  let start := ticks k1 in
  let '(arrived, h2) := spin (busy_wait loops) h1 in
  let k2 := Nat.iter arrived tick_irq k1 in
  (negb (start =? ticks k2), (k2, h2)).

(** The first loop of [timer_calibrate]: double [loops_per_tick] while
    twice its value still fits in a tick. *)
Fixpoint calibrate_coarse (fuel : nat) (m : machine) : result machine :=
  match fuel with
  | O => OutOfFuel
  | S fuel' =>
      let '(many, (k1, h1)) :=
        too_many_loops (wrap32 (Z.shiftl (loops_per_tick (fst m)) 1)) m in
      if many then Ret (k1, h1)
      else
        let k2 :=
          set_loops_per_tick (wrap32 (Z.shiftl (loops_per_tick k1) 1)) k1 in
        if loops_per_tick k2 =? 0 then Panic
        else calibrate_coarse fuel' (k2, h1)
  end.

(** The second loop of [timer_calibrate]:
    [for (test_bit = high_bit >> 1; test_bit != high_bit >> 10;
          test_bit >>= 1)]. *)
Fixpoint calibrate_refine (fuel : nat) (high_bit test_bit : Z)
    (m : machine) : result machine :=
  match fuel with
  | O => OutOfFuel
  | S fuel' =>
      if test_bit =? Z.shiftr high_bit 10 then Ret m
      else
        let '(many, (k1, h1)) :=
          too_many_loops (Z.lor high_bit test_bit) m in
        let k2 :=
          if many then k1
          else set_loops_per_tick (Z.lor (loops_per_tick k1) test_bit) k1 in
        calibrate_refine fuel' high_bit (Z.shiftr test_bit 1) (k2, h1)
  end.

(** [timer_calibrate]; the two [printf] calls write to the console only. *)
Definition timer_calibrate (fuel : nat) (m : machine) : result machine :=
  let '(k, h) := m in
  if decide (intr_get_level k = INTR_ON) then
    let k0 := set_loops_per_tick (wrap32 (Z.shiftl 1 10)) k in
    match calibrate_coarse fuel (k0, h) with
    | Ret (k1, h1) =>
        let high_bit := loops_per_tick k1 in
        calibrate_refine fuel high_bit (Z.shiftr high_bit 1) (k1, h1)
    | r => r
    end
  else Panic.
End WithHardware.

Section WithFrequency.
(** [TIMER_FREQ] comes from devices/timer.h, which is not part of the
    sources; the file accepts the values from 19 to 1000. *)
Variable TIMER_FREQ : Z.

(** The [uint16_t count] of [timer_init]: the input frequency of the 8254
    divided by [TIMER_FREQ], rounded to nearest. *)
Definition pit_count : Z := wrap16 ((1193180 + TIMER_FREQ ÷ 2) ÷ TIMER_FREQ).

(** [timer_init]: program the divisor of the 8254, set up the sleep queue,
    register the handler on vector 0x20. *)
Definition timer_init (k : kernel) : kernel :=
  let count := pit_count in
  let k1 := outb 0x43 0x34 k in
  let k2 := outb 0x40 (Z.land count 0xff) k1 in
  let k3 := outb 0x40 (Z.shiftr count 8) k2 in
  let k4 := set_sleeping_list list_init k3 in
  intr_register_ext 0x20 k4.

(** The argument [real_time_sleep] hands to [busy_wait]:
    [loops_per_tick * num / 1000 * TIMER_FREQ / (denom / 1000)], in
    [int64_t], from left to right. *)
Definition sub_tick_loops (num denom : Z) (k : kernel) : Z :=
  wrap64
    (wrap64 (wrap64 (wrap64 (loops_per_tick k * num) ÷ 1000) * TIMER_FREQ)
     ÷ (denom ÷ 1000)).

(** [real_time_sleep]: the value is the number of iterations of the
    busy-wait loop that ran and the kernel state.  A zero [denom] is a
    divide error, which stops the kernel. *)
Definition real_time_sleep (num denom : Z) (k : kernel)
    : result (nat * kernel) :=
  if decide (denom = 0) then Panic
  else
    let ticks := wrap64 (wrap64 (num * TIMER_FREQ) ÷ denom) in
    if decide (intr_get_level k = INTR_ON) then
      if 0 <? ticks then Ret (0%nat, timer_sleep ticks k)
      else if Z.rem denom 1000 =? 0 then
        Ret (busy_wait (sub_tick_loops num denom k), k)
      else Panic
    else Panic.

(** [timer_msleep], [timer_usleep], [timer_nsleep]. *)
Definition timer_msleep (ms : Z) (k : kernel) : result (nat * kernel) :=
  real_time_sleep ms 1000 k.
Definition timer_usleep (us : Z) (k : kernel) : result (nat * kernel) :=
  real_time_sleep us (1000 * 1000) k.
Definition timer_nsleep (ns : Z) (k : kernel) : result (nat * kernel) :=
  real_time_sleep ns (1000 * 1000 * 1000) k.
End WithFrequency.

(** ** The kernel as a transition system *)

(** What happens to the timer's state, one atomic piece at a time: a tick
    interrupt; the running thread, inside [timer_sleep (n)] with [start]
    read on entry, passing from [intr_disable] to [thread_block] (or
    returning at once when [n <= 0]); the scheduler switching to a ready
    thread.  Ticks may come between the moment [timer_sleep] reads [start]
    and the moment it masks interrupts, so [start] may be older than the
    counter. *)
Inductive event :=
  | EvTick
  | EvSleep (start n : Z)
  | EvSwitch (t : tid).

Definition exec (ev : event) (k : kernel) : kernel :=
  match ev with
  | EvTick => intr_entry timer_interrupt k
  | EvSleep start n => if n <=? 0 then k else timer_sleep_block start n k
  | EvSwitch t => schedule t k
  end.

(** Interrupts arrive and threads run only with interrupts enabled; only the
    running thread calls [timer_sleep]; only a ready thread is switched to. *)
Definition enabled (ev : event) (k : kernel) : bool :=
  match ev with
  | EvTick => bool_decide (level k = INTR_ON)
  | EvSleep _ _ =>
      bool_decide (level k = INTR_ON)
      && bool_decide (status_of k (thread_current k) = THREAD_RUNNING)
  | EvSwitch t => bool_decide (status_of k t = THREAD_READY)
  end.

Fixpoint run (evs : list event) (k : kernel) : option kernel :=
  match evs with
  | [] => Some k
  | ev :: rest => if enabled ev k then run rest (exec ev k) else None
  end.

Definition is_tick (ev : event) : bool :=
  match ev with EvTick => true | _ => false end.

(** The sleepers at the head of the queue whose wake tick has come, and the
    queue behind them. *)
Fixpoint due_sleepers (k : kernel) (now : Z) (l : list tid) : list tid :=
  match l with
  | [] => []
  | t :: rest =>
      if wake_of k t <=? now then t :: due_sleepers k now rest else []
  end.
Fixpoint later_sleepers (k : kernel) (now : Z) (l : list tid) : list tid :=
  match l with
  | [] => []
  | t :: rest =>
      if wake_of k t <=? now then later_sleepers k now rest else l
  end.

(** The number of tick interrupts in a run. *)
Fixpoint count_ticks (evs : list event) : Z :=
  match evs with
  | [] => 0
  | ev :: rest => (if is_tick ev then 1 else 0) + count_ticks rest
  end.

(** What one tick does to the kernel [k], leaving the interrupt level aside:
    the counter moves to [now], the due sleepers leave the head of the queue
    and are unblocked in queue order, everything else stays. *)
Definition tick_effect (k k' : kernel) : Prop :=
  let now := wrap64 (ticks k + 1) in
  ticks k' = now
  ∧ sleeping_list k' = later_sleepers k now (sleeping_list k)
  ∧ unblocked k' = unblocked k ++ due_sleepers k now (sleeping_list k)
  ∧ loops_per_tick k' = loops_per_tick k
  ∧ running k' = running k
  ∧ outb_log k' = outb_log k
  ∧ intr_vectors k' = intr_vectors k
  ∧ (∀ x, wake_of k' x = wake_of k x)
  ∧ (∀ x, status_of k' x =
          if decide (x ∈ due_sleepers k now (sleeping_list k))
          then THREAD_READY else status_of k x).

(** ** Invariants of the sleep queue *)

(** A list of threads in ascending order of a key: for two members A then B
    in list order, the key of A is at most the key of B. *)
Definition ordered_by (key : tid → Z) (l : list tid) : Prop :=
  ∀ (i j : nat) (a b : tid),
    (i < j)%nat → l !! i = Some a → l !! j = Some b → key a <= key b.

(** The sleep queue is in ascending order of [wake_tick]. *)
Definition sq_ordered (k : kernel) : Prop :=
  ordered_by (wake_of k) (sleeping_list k).

(** Every member is blocked and appears once, and the queue is ordered. *)
Record kernel_inv (k : kernel) : Prop := {
  inv_ordered : sq_ordered k;
  inv_nodup : NoDup (sleeping_list k);
  inv_blocked : ∀ t, t ∈ sleeping_list k → status_of k t = THREAD_BLOCKED
}.

(** [a] comes before the first [b] in [l]. *)
Definition precedes (a b : tid) (l : list tid) : Prop :=
  ∃ l1 l2, l = l1 ++ b :: l2 ∧ (b ∉ l1) ∧ a ∈ l1.

(** A kernel right after boot: thread 0 runs, nobody sleeps. *)
Definition boot_kernel : kernel :=
  mkKernel 0 0 []
    (<[0%nat := mkThread THREAD_RUNNING 0]> (λ _, mkThread THREAD_READY 0))
    0%nat INTR_ON [] [] [].

(** ** The refinement phase of the calibration, as a fold *)

Section RefinementFolds.
Context {HW : Type} `{Hardware HW}.

(** The bits below the coarse value: [high_bit / 2], [high_bit / 4], ...,
    [high_bit / 2 ^ count]. *)
Definition candidate_bits (high_bit : Z) (count : nat) : list Z :=
  map (λ i, high_bit / 2 ^ Z.of_nat i) (seq 1 count).

(** The refinement phase in the words of the specification: each candidate
    is tried on top of the bits kept so far, [too_many_loops (L | b)], and
    kept when the answer is no. *)
Fixpoint refine_cumulative (bits : list Z) (m : machine) : machine :=
  match bits with
  | [] => m
  | b :: rest =>
      let L := loops_per_tick (fst m) in
      let '(many, (k1, h1)) := too_many_loops (Z.lor L b) m in
      refine_cumulative rest
        (if many then k1 else set_loops_per_tick (Z.lor L b) k1, h1)
  end.

(** Ten candidates, from [high_bit / 2] to [high_bit / 2 ^ 10]. *)
Definition refinement_as_specified (high_bit : Z) (m : machine) : machine :=
  refine_cumulative (candidate_bits high_bit 10) m.

(** Each candidate tried on top of the coarse value alone,
    [too_many_loops (high_bit | b)], and or-ed into [loops_per_tick] when
    the answer is no. *)
Fixpoint refine_independent (high_bit : Z) (bits : list Z) (m : machine)
    : machine :=
  match bits with
  | [] => m
  | b :: rest =>
      let '(many, (k1, h1)) := too_many_loops (Z.lor high_bit b) m in
      refine_independent high_bit rest
        (if many then k1
         else set_loops_per_tick (Z.lor (loops_per_tick k1) b) k1, h1)
  end.
End RefinementFolds.

(** A timer chip for examples: a tick lasts 1331 runs of the busy-wait loop
    body, so a longer busy-wait sees one tick interrupt and a shorter one
    sees none. *)
Definition sample_hardware : Hardware unit :=
  {| await_tick := λ h, h;
     spin := λ n h, (if (1331 <? n)%nat then 1%nat else 0%nat, h) |}.

(** The machine after the coarse phase found [loops_per_tick = 2 ^ 10]. *)
Definition coarse_machine : kernel * unit :=
  (set_loops_per_tick (2 ^ 10) boot_kernel, tt).

(** After calibration found 2048 loops per tick. *)
Definition calibrated_kernel : kernel := set_loops_per_tick 2048 boot_kernel.

(** Thread 0 went to sleep for one tick right after boot: the counter is 0
    and its wake tick is 1. *)
Definition one_tick_sleeper : kernel := timer_sleep 1 boot_kernel.

(** What a run keeps true of two sleepers [t1] and [t] once [t1] is in front
    of [t] in the queue; [base] is the record of [thread_unblock] at the
    start, [log] what the run has added.  Either both still sleep, [t1] in
    front, or [t1] has been unblocked and [t] not yet, or both have been,
    [t1] before [t]. *)
Definition fifo_inv (t1 t : tid) (base : list tid) (k : kernel) : Prop :=
  ∃ log,
    unblocked k = base ++ log
    ∧ (t ∈ log → precedes t1 t log)
    ∧ (t ∉ log →
       t1 ∈ log ∨ (kernel_inv k ∧ [t1; t] `sublist_of` sleeping_list k)).

(** Thread 0 sleeps 5 ticks at tick 0, thread 1 gets the CPU. *)
Definition first_sleeper_queued : kernel :=
  schedule 1%nat (timer_sleep 5 boot_kernel).

(** The threads a run puts to sleep, in the order of their calls: the
    running thread at each [timer_sleep (n)] with [n > 0]. *)
Fixpoint sleepers (evs : list event) (k : kernel) : list tid :=
  match evs with
  | [] => []
  | ev :: rest =>
      match ev with
      | EvSleep _ n => if n <=? 0 then [] else [thread_current k]
      | _ => []
      end ++ sleepers rest (exec ev k)
  end.

(** A timer chip on which no busy-wait ever lasts into the next tick. *)
Definition silent_hardware : Hardware unit :=
  {| await_tick := λ h, h; spin := λ _ h, (0%nat, h) |}.

(** ** Basic facts *)

Lemma wrap64_id z : in_int64 z → wrap64 z = z.
Proof.
  unfold in_int64, wrap64, INT64_MIN, INT64_MAX. intros Hz.
  rewrite Z.mod_small by lia. lia.
Qed.

Lemma wrap64_range z : in_int64 (wrap64 z).
Proof.
  unfold in_int64, wrap64, INT64_MIN, INT64_MAX.
  pose proof (Z.mod_pos_bound (z + 2 ^ 63) (2 ^ 64) ltac:(lia)). lia.
Qed.

Lemma wrap16_id z : 0 <= z < 2 ^ 16 → wrap16 z = z.
Proof. intros Hz. unfold wrap16. by rewrite Z.mod_small. Qed.

Lemma set_level_same k : set_level (level k) k = k.
Proof. by destruct k. Qed.

Lemma set_level_set_level l1 l2 k :
  set_level l1 (set_level l2 k) = set_level l1 k.
Proof. by destruct k. Qed.

(** [timer_ticks] returns the counter and leaves the kernel as it was: the
    interrupt level it masks is the one it restores. *)
Lemma timer_ticks_spec k : timer_ticks k = (ticks k, k).
Proof.
  unfold timer_ticks, intr_disable, intr_set_level. cbn.
  rewrite set_level_set_level, set_level_same. done.
Qed.

Lemma timer_sleep_unfold n k :
  timer_sleep n k = exec (EvSleep (ticks k) n) k.
Proof. unfold timer_sleep. by rewrite timer_ticks_spec. Qed.

(** *** Fields a setter leaves alone *)

Lemma wake_of_set_status t s k x : wake_of (set_status t s k) x = wake_of k x.
Proof.
  unfold wake_of, set_status. cbn.
  destruct (decide (t = x)) as [->|Hne].
  - by rewrite fn_lookup_insert.
  - by rewrite fn_lookup_insert_ne.
Qed.

Lemma status_of_set_status t s k x :
  status_of (set_status t s k) x = if decide (t = x) then s else status_of k x.
Proof.
  unfold status_of, set_status. cbn.
  destruct (decide (t = x)) as [->|Hne].
  - by rewrite fn_lookup_insert.
  - by rewrite fn_lookup_insert_ne.
Qed.

Lemma wake_of_set_wake_tick t w k x :
  wake_of (set_wake_tick t w k) x = if decide (t = x) then w else wake_of k x.
Proof.
  unfold wake_of, set_wake_tick. cbn.
  destruct (decide (t = x)) as [->|Hne].
  - by rewrite fn_lookup_insert.
  - by rewrite fn_lookup_insert_ne.
Qed.

Lemma status_of_set_wake_tick t w k x :
  status_of (set_wake_tick t w k) x = status_of k x.
Proof.
  unfold status_of, set_wake_tick. cbn.
  destruct (decide (t = x)) as [->|Hne].
  - by rewrite fn_lookup_insert.
  - by rewrite fn_lookup_insert_ne.
Qed.

Lemma wake_of_set_sleeping_list v k x :
  wake_of (set_sleeping_list v k) x = wake_of k x.
Proof. done. Qed.

Lemma status_of_set_sleeping_list v k x :
  status_of (set_sleeping_list v k) x = status_of k x.
Proof. done. Qed.

Lemma wake_of_thread_unblock t k x : wake_of (thread_unblock t k) x = wake_of k x.
Proof. apply wake_of_set_status. Qed.

Lemma status_of_thread_unblock t k x :
  status_of (thread_unblock t k) x
  = if decide (t = x) then THREAD_READY else status_of k x.
Proof. apply status_of_set_status. Qed.

Create Rewrite HintDb kernel.
#[local] Hint Rewrite wake_of_set_status status_of_set_status
  wake_of_set_wake_tick status_of_set_wake_tick
  wake_of_set_sleeping_list status_of_set_sleeping_list
  wake_of_thread_unblock status_of_thread_unblock : kernel.

Lemma list_remove_head t l : list_remove t (t :: l) = l.
Proof. cbn. by rewrite decide_True. Qed.

Lemma due_later_app k now l :
  due_sleepers k now l ++ later_sleepers k now l = l.
Proof.
  induction l as [|t l IH]; [done|]. cbn.
  destruct (wake_of k t <=? now); [|done]. cbn. by rewrite IH.
Qed.

Lemma due_sleepers_ext k1 k2 now l :
  (∀ x, wake_of k1 x = wake_of k2 x) →
  due_sleepers k1 now l = due_sleepers k2 now l.
Proof.
  intros Hw. induction l as [|t l IH]; [done|]. cbn.
  rewrite Hw, IH. done.
Qed.

Lemma later_sleepers_ext k1 k2 now l :
  (∀ x, wake_of k1 x = wake_of k2 x) →
  later_sleepers k1 now l = later_sleepers k2 now l.
Proof.
  intros Hw. induction l as [|t l IH]; [done|]. cbn.
  rewrite Hw, IH. done.
Qed.

(** *** The loop of the tick handler *)

(** What [wake_loop] does when its cursor is at the head of the queue, field
    by field: it takes the due sleepers off the head, unblocks them in queue
    order and touches nothing else. *)
Lemma wake_loop_spec l k :
  sleeping_list k = l →
  let k' := wake_loop l k in
  sleeping_list k' = later_sleepers k (ticks k) l
  ∧ unblocked k' = unblocked k ++ due_sleepers k (ticks k) l
  ∧ ticks k' = ticks k
  ∧ loops_per_tick k' = loops_per_tick k
  ∧ running k' = running k
  ∧ level k' = level k
  ∧ outb_log k' = outb_log k
  ∧ intr_vectors k' = intr_vectors k
  ∧ (∀ x, wake_of k' x = wake_of k x)
  ∧ (∀ x, status_of k' x =
          if decide (x ∈ due_sleepers k (ticks k) l) then THREAD_READY
          else status_of k x).
Proof.
  revert k. induction l as [|t next IH]; intros k Hl; cbn zeta.
  - cbn. rewrite app_nil_r. repeat split; try done.
  - cbn [wake_loop due_sleepers later_sleepers].
    rewrite timer_ticks_spec. cbn [fst]. fold (wake_of k t).
    destruct (wake_of k t <=? ticks k) eqn:Hdue.
    + set (k1 := thread_unblock t _).
      assert (Hk1 : sleeping_list k1 = next).
      { subst k1. cbn. rewrite Hl. apply list_remove_head. }
      assert (Hw : ∀ x, wake_of k1 x = wake_of k x).
      { intros x. subst k1. by autorewrite with kernel. }
      assert (Hs : ∀ x, status_of k1 x
                        = if decide (t = x) then THREAD_READY else status_of k x).
      { intros x. subst k1. by autorewrite with kernel. }
      destruct (IH k1 Hk1) as (E1 & E2 & E3 & E4 & E5 & E6 & E7 & E8 & E9 & E10).
      assert (Ht : ticks k1 = ticks k) by done.
      rewrite Ht in *.
      rewrite (due_sleepers_ext k1 k) in * by done.
      rewrite (later_sleepers_ext k1 k) in E1 by done.
      repeat split; try done.
      * rewrite E2. subst k1. cbn. by rewrite <- app_assoc.
      * intros x. by rewrite E9.
      * intros x. rewrite E10, Hs.
        destruct (decide (t = x)) as [->|Hne].
        -- rewrite (decide_True (P := x ∈ x :: _)) by apply list_elem_of_here.
           by destruct (decide _).
        -- destruct (decide (x ∈ due_sleepers k (ticks k) next)) as [Hin|Hout].
           ++ rewrite decide_True; [done|]. by apply list_elem_of_further.
           ++ rewrite decide_False; [done|].
              intros [?|?]%elem_of_cons; congruence.
    + rewrite app_nil_r. repeat split; try done.
Qed.

Lemma timer_interrupt_effect k :
  tick_effect k (timer_interrupt k) ∧ level (timer_interrupt k) = level k.
Proof.
  unfold timer_interrupt, thread_tick. cbn zeta.
  set (k1 := set_ticks _ k).
  destruct (wake_loop_spec (sleeping_list k1) k1 eq_refl)
    as (E1 & E2 & E3 & E4 & E5 & E6 & E7 & E8 & E9 & E10).
  assert (Hw : ∀ x, wake_of k1 x = wake_of k x) by done.
  rewrite (due_sleepers_ext k1 k) in * by done.
  rewrite (later_sleepers_ext k1 k) in * by done.
  unfold tick_effect. cbn zeta. repeat split; try done.
Qed.

Lemma exec_tick_effect k :
  tick_effect k (exec EvTick k) ∧ level (exec EvTick k) = level k.
Proof.
  cbn [exec]. unfold intr_entry, intr_disable, intr_set_level. cbn.
  destruct (timer_interrupt_effect (set_level INTR_OFF k))
    as ((E1 & E2 & E3 & E4 & E5 & E6 & E7 & E8 & E9) & _).
  assert (Hw : ∀ x, wake_of (set_level INTR_OFF k) x = wake_of k x) by done.
  rewrite (due_sleepers_ext (set_level INTR_OFF k) k) in * by done.
  rewrite (later_sleepers_ext (set_level INTR_OFF k) k) in * by done.
  unfold tick_effect. cbn zeta. repeat split; try done.
Qed.

(** *** The tick counter *)

Lemma ticks_exec ev k :
  ticks (exec ev k) = if is_tick ev then wrap64 (ticks k + 1) else ticks k.
Proof.
  destruct ev as [|start n|t].
  - by destruct (exec_tick_effect k) as ((E & _) & _).
  - cbn. by destruct (n <=? 0).
  - cbn. unfold schedule. by destruct (decide _).
Qed.

Lemma count_ticks_nonneg evs : 0 <= count_ticks evs.
Proof. induction evs as [|[] evs IH]; cbn; lia. Qed.

Lemma run_ticks evs k k' :
  in_int64 (ticks k) →
  ticks k + count_ticks evs <= INT64_MAX →
  run evs k = Some k' →
  ticks k' = ticks k + count_ticks evs.
Proof.
  revert k. induction evs as [|ev evs IH]; intros k Hk Hmax Hrun.
  - cbn in *. injection Hrun as <-. lia.
  - cbn [run count_ticks] in *. destruct (enabled ev k); [|done].
    pose proof (count_ticks_nonneg evs) as Hpos.
    pose proof (ticks_exec ev k) as Hev.
    assert (Hstep : ticks (exec ev k) = ticks k + (if is_tick ev then 1 else 0)).
    { rewrite Hev. destruct (is_tick ev); [|lia].
      apply wrap64_id. unfold in_int64 in *. lia. }
    rewrite (IH (exec ev k)); [lia| |lia|done].
    unfold in_int64 in *. destruct (is_tick ev); lia.
Qed.

Lemma ticks_real_time_sleep F num denom k iterations k' :
  real_time_sleep F num denom k = Ret (iterations, k') → ticks k' = ticks k.
Proof.
  unfold real_time_sleep.
  destruct (decide (denom = 0)); [done|].
  destruct (decide (intr_get_level k = INTR_ON)); [|done].
  destruct (0 <? _).
  - intros Heq. assert (k' = timer_sleep (wrap64 (wrap64 (num * F) ÷ denom)) k)
      as -> by congruence.
    rewrite timer_sleep_unfold. apply (ticks_exec (EvSleep _ _)).
  - destruct (Z.rem denom 1000 =? 0); [|done].
    intros Heq. assert (k' = k) as -> by congruence. done.
Qed.

(** C8: the tick counter never goes back.  Only the tick handler writes it,
    adding exactly one per tick interrupt: [timer_sleep], the scheduler,
    [timer_init] and [real_time_sleep] leave it alone.  So over any run of
    the kernel in which the 64-bit counter does not overflow, the second of
    two successive reads of [timer_ticks] is the first plus the number of
    tick interrupts between them, hence at least the first. *)
Theorem ticks_non_decreasing evs k k' :
  in_int64 (ticks k) →
  ticks k + count_ticks evs <= INT64_MAX →
  run evs (snd (timer_ticks k)) = Some k' →
  (∀ ev k0, ticks (exec ev k0)
            = if is_tick ev then wrap64 (ticks k0 + 1) else ticks k0)
  ∧ (∀ F k0, ticks (timer_init F k0) = ticks k0)
  ∧ (∀ F num denom k0 iterations k1,
       real_time_sleep F num denom k0 = Ret (iterations, k1) →
       ticks k1 = ticks k0)
  ∧ fst (timer_ticks k') = fst (timer_ticks k) + count_ticks evs
  ∧ fst (timer_ticks k) <= fst (timer_ticks k').
Proof.
  intros Hk Hmax Hrun. rewrite !timer_ticks_spec in *. cbn [fst snd] in *.
  pose proof (run_ticks evs k k' Hk Hmax Hrun) as Heq.
  pose proof (count_ticks_nonneg evs).
  split; [apply ticks_exec|]. split; [done|].
  split; [apply ticks_real_time_sleep|]. lia.
Qed.

Lemma ticks_non_decreasing_witness :
  ∃ k', run [EvTick; EvSleep 1 5; EvSwitch 1%nat; EvTick] boot_kernel = Some k'
        ∧ fst (timer_ticks k') = 2
        ∧ fst (timer_ticks boot_kernel) <= fst (timer_ticks k').
Proof.
  eexists. split; [vm_compute; reflexivity|].
  refine (proj2 (proj2 (proj2 (ticks_non_decreasing
                   [EvTick; EvSleep 1 5; EvSwitch 1%nat; EvTick]
                   boot_kernel _ _ _ _)))).
  - vm_compute. split; discriminate.
  - vm_compute. discriminate.
  - vm_compute. reflexivity.
Defined.

(** C7: [timer_sleep (n)] with [n <= 0] gives back the kernel it was called
    on: the sleep queue is as before and the caller is not blocked. *)
Theorem timer_sleep_nonpositive n k :
  n <= 0 →
  timer_sleep n k = k
  ∧ sleeping_list (timer_sleep n k) = sleeping_list k
  ∧ status_of (timer_sleep n k) (thread_current k)
    = status_of k (thread_current k).
Proof.
  intros Hn. assert (E : timer_sleep n k = k).
  { unfold timer_sleep. rewrite timer_ticks_spec.
    by rewrite (proj2 (Z.leb_le n 0) Hn). }
  by rewrite E.
Qed.

Lemma timer_sleep_nonpositive_witness :
  timer_sleep (-7) boot_kernel = boot_kernel
  ∧ timer_sleep 0 boot_kernel = boot_kernel.
Proof.
  assert (H7 : -7 <= 0) by lia.
  assert (H0 : 0 <= 0) by lia.
  split.
  - exact (proj1 (timer_sleep_nonpositive (-7) boot_kernel H7)).
  - exact (proj1 (timer_sleep_nonpositive 0 boot_kernel H0)).
Defined.

(** *** The divisor of the interval timer *)

Lemma pit_divisor_bounds F :
  19 <= F <= 1000 → 1193 <= (1193180 + F ÷ 2) ÷ F <= 62799.
Proof.
  intros HF. rewrite (Z.quot_div_nonneg F 2) by lia.
  assert (H0 : 0 <= F / 2) by (apply Z.div_pos; lia).
  assert (H1 : 2 * (F / 2) <= F) by (apply Z.mul_div_le; lia).
  rewrite Z.quot_div_nonneg by lia.
  split.
  - apply Z.div_le_lower_bound; lia.
  - assert ((1193180 + F / 2) / F < 62800); [|lia].
    apply Z.div_lt_upper_bound; lia.
Qed.

(** C9: for every [TIMER_FREQ] the file accepts, 19 to 1000, the divisor
    [(1193180 + TIMER_FREQ / 2) / TIMER_FREQ] is at most 65535, so the
    [uint16_t count] of [timer_init] holds it unchanged, and the two bytes
    written to port 0x40 are its low and high byte. *)
Theorem pit_count_fits F k :
  19 <= F <= 1000 →
  let divisor := (1193180 + F ÷ 2) ÷ F in
  0 < divisor <= 65535
  ∧ pit_count F = divisor
  ∧ outb_log (timer_init F k)
    = outb_log k ++ [(0x43, 0x34); (0x40, divisor mod 256);
                     (0x40, divisor / 256)]
  ∧ divisor mod 256 + 256 * (divisor / 256) = divisor.
Proof.
  intros HF divisor. pose proof (pit_divisor_bounds F HF) as Hd.
  fold divisor in Hd.
  assert (Hc : pit_count F = divisor).
  { unfold pit_count. fold divisor. apply wrap16_id. lia. }
  assert (Hlo : Z.land divisor 0xff mod 2 ^ 8 = divisor mod 256).
  { change 255 with (Z.ones 8). rewrite Z.land_ones by lia.
    change (2 ^ 8) with 256. apply Z.mod_mod. lia. }
  assert (Hhi : Z.shiftr divisor 8 mod 2 ^ 8 = divisor / 256).
  { rewrite Z.shiftr_div_pow2 by lia. change (2 ^ 8) with 256.
    apply Z.mod_small. split; [apply Z.div_pos; lia|].
    apply Z.div_lt_upper_bound; lia. }
  split; [lia|]. split; [done|]. split.
  - unfold timer_init, outb, intr_register_ext.
    cbn [outb_log set_outb_log set_sleeping_list set_intr_vectors].
    rewrite Hc, Hlo, Hhi, <- !app_assoc. done.
  - pose proof (Z.div_mod divisor 256 ltac:(lia)). lia.
Qed.

Lemma pit_count_fits_witness :
  pit_count 100 = 11932 ∧ pit_count 19 = 62799 ∧ pit_count 1000 = 1193.
Proof.
  assert (H100 : 19 <= 100 <= 1000) by lia.
  assert (H19 : 19 <= 19 <= 1000) by lia.
  assert (H1000 : 19 <= 1000 <= 1000) by lia.
  split; [|split].
  - exact (proj1 (proj2 (pit_count_fits 100 boot_kernel H100))).
  - exact (proj1 (proj2 (pit_count_fits 19 boot_kernel H19))).
  - exact (proj1 (proj2 (pit_count_fits 1000 boot_kernel H1000))).
Defined.

(** *** The busy-wait loop *)

Lemma busy_wait_from_spec loops done :
  in_int64 loops →
  busy_wait_from loops done = (done + Z.to_nat (Z.max loops 0))%nat.
Proof.
  funelim (busy_wait_from loops done); intros Hin.
  - match goal with
    | IH : in_int64 _ → busy_wait_from _ _ = _ |- _ =>
        rewrite IH by apply wrap64_range
    end.
    rewrite wrap64_id by (unfold in_int64, INT64_MIN, INT64_MAX in *; lia).
    rewrite !Z.max_l by lia.
    replace loops with (Z.succ (loops - 1)) at 2 by lia.
    rewrite Z2Nat.inj_succ by lia. lia.
  - rewrite Z.max_r by lia. cbn. lia.
Qed.

(** C10: [busy_wait (n)] returns for every [int64_t] argument, after exactly
    [max (n, 0)] runs of the loop body; with [n <= 0] the body never runs. *)
Theorem busy_wait_iterations n :
  in_int64 n →
  busy_wait n = Z.to_nat (Z.max n 0)
  ∧ (n <= 0 → busy_wait n = 0%nat).
Proof.
  intros Hin. unfold busy_wait. rewrite busy_wait_from_spec by done.
  split; [done|]. intros Hn. rewrite Z.max_r by lia. done.
Qed.

Lemma busy_wait_iterations_witness :
  busy_wait 5 = 5%nat ∧ busy_wait (-3) = 0%nat ∧ busy_wait INT64_MIN = 0%nat.
Proof.
  assert (H5 : in_int64 5) by (vm_compute; split; discriminate).
  assert (H3 : in_int64 (-3)) by (vm_compute; split; discriminate).
  assert (Hm : in_int64 INT64_MIN) by (vm_compute; split; discriminate).
  split; [|split].
  - exact (proj1 (busy_wait_iterations 5 H5)).
  - apply (proj2 (busy_wait_iterations (-3) H3)). lia.
  - apply (proj2 (busy_wait_iterations INT64_MIN Hm)). vm_compute. discriminate.
Defined.

(** *** The calibration *)

Section CalibrationFacts.
Context {HW : Type} `{Hardware HW}.

Lemma loops_per_tick_iter_tick_irq n k :
  loops_per_tick (Nat.iter n tick_irq k) = loops_per_tick k.
Proof.
  induction n as [|n IH]; [done|]. rewrite Nat.iter_succ.
  destruct (exec_tick_effect (Nat.iter n tick_irq k))
    as ((_ & _ & _ & E & _) & _).
  change (exec EvTick ?k0) with (tick_irq k0) in E. by rewrite E.
Qed.

(** [too_many_loops] leaves [loops_per_tick] alone. *)
Lemma too_many_loops_loops_per_tick loops m :
  loops_per_tick (fst (snd (too_many_loops loops m)))
  = loops_per_tick (fst m).
Proof.
  destruct m as [k h]. unfold too_many_loops.
  destruct (spin _ _) as [arrived h2]. cbn [fst snd].
  rewrite loops_per_tick_iter_tick_irq.
  destruct (exec_tick_effect k) as ((_ & _ & _ & E & _) & _).
  by change (exec EvTick k) with (tick_irq k) in E.
Qed.

Lemma shiftr_ne_end high_bit i :
  2 ^ 9 <= high_bit → 1 <= i <= 9 →
  Z.shiftr high_bit i ≠ Z.shiftr high_bit 10.
Proof.
  intros Hh Hi. rewrite !Z.shiftr_div_pow2 by lia.
  replace (2 ^ 10) with (2 ^ i * 2 ^ (10 - i))
    by (rewrite <- Z.pow_add_r by lia; f_equal; lia).
  rewrite <- Z.div_div by lia.
  assert (Hq : 1 <= high_bit / 2 ^ i).
  { apply Z.div_le_lower_bound; [lia|].
    assert (2 ^ i <= 2 ^ 9) by (apply Z.pow_le_mono_r; lia). lia. }
  assert (2 <= 2 ^ (10 - i)).
  { change 2 with (2 ^ 1) at 1. apply Z.pow_le_mono_r; lia. }
  assert (high_bit / 2 ^ i / 2 ^ (10 - i) < high_bit / 2 ^ i); [|lia].
  apply Z.div_lt; lia.
Qed.

Lemma calibrate_refine_from (j : nat) :
  ∀ (fuel : nat) (high_bit : Z) (i : nat) (m : machine),
    2 ^ 9 <= high_bit →
    (1 <= i)%nat → (i + j = 10)%nat → (j < fuel)%nat →
    calibrate_refine fuel high_bit (Z.shiftr high_bit (Z.of_nat i)) m
    = Ret (refine_independent high_bit
             (map (λ i, high_bit / 2 ^ Z.of_nat i) (seq i j)) m).
Proof.
  induction j as [|j IH]; intros fuel high_bit i m Hh Hi Hij Hfuel.
  - destruct fuel as [|fuel]; [lia|]. cbn.
    assert (i = 10%nat) as -> by lia. cbn [Z.of_nat].
    change (Z.pos (Pos.of_succ_nat 9)) with 10.
    by rewrite Z.eqb_refl.
  - destruct fuel as [|fuel]; [lia|].
    cbn [calibrate_refine seq map refine_independent].
    rewrite (proj2 (Z.eqb_neq _ _)) by (apply shiftr_ne_end; lia).
    rewrite <- (Z.shiftr_div_pow2 high_bit (Z.of_nat i)) by lia.
    destruct (too_many_loops _ m) as [many [k1 h1]].
    rewrite Z.shiftr_shiftr by lia.
    replace (Z.of_nat i + 1) with (Z.of_nat (S i)) by lia.
    apply IH; lia.
Qed.
(** The coarse phase ends within 22 rounds: [loops_per_tick] is a power of
    two from [2 ^ 10] on, and the [ASSERT] stops the kernel when doubling
    [2 ^ 31] gives zero. *)
Lemma calibrate_coarse_total (fuel : nat) :
  ∀ (e : Z) (m : machine),
    10 <= e <= 31 → loops_per_tick (fst m) = 2 ^ e →
    32 - e <= Z.of_nat fuel →
    match calibrate_coarse fuel m with
    | Ret m' => ∃ e', 10 <= e' <= 31 ∧ loops_per_tick (fst m') = 2 ^ e'
    | Panic => True
    | OutOfFuel => False
    end.
Proof.
  induction fuel as [|fuel IH]; intros e m He Hm Hfuel; [lia|].
  cbn [calibrate_coarse].
  pose proof (too_many_loops_loops_per_tick
                (wrap32 (Z.shiftl (loops_per_tick (fst m)) 1)) m) as Hl.
  destruct (too_many_loops _ m) as [many [k1 h1]]. cbn [fst snd] in Hl.
  destruct many.
  - exists e. cbn [fst]. split; [lia|congruence].
  - cbn [loops_per_tick set_loops_per_tick].
    rewrite Hl, Hm, Z.shiftl_mul_pow2 by lia.
    replace (2 ^ e * 2 ^ 1) with (2 ^ (e + 1))
      by (rewrite Z.pow_add_r by lia; done).
    unfold wrap32. destruct (decide (e = 31)) as [->|Hne].
    + by change ((2 ^ (31 + 1)) mod 2 ^ 32) with 0.
    + assert (0 < 2 ^ (e + 1) < 2 ^ 32) as Hlt.
      { split; [apply Z.pow_pos_nonneg; lia|].
        apply Z.pow_lt_mono_r; lia. }
      rewrite Z.mod_small by lia.
      rewrite (proj2 (Z.eqb_neq _ 0)) by lia.
      apply (IH (e + 1)); [lia|done|lia].
Qed.

(** [timer_calibrate] comes to an end, and when it returns its second loop
    has tried the nine bits below the coarse value. *)
Lemma timer_calibrate_total fuel k h :
  (22 <= fuel)%nat →
  match timer_calibrate fuel (k, h) with
  | Ret m' =>
      ∃ m1, calibrate_coarse fuel
              (set_loops_per_tick (wrap32 (Z.shiftl 1 10)) k, h) = Ret m1
            ∧ m' = refine_independent (loops_per_tick (fst m1))
                     (candidate_bits (loops_per_tick (fst m1)) 9) m1
  | Panic => True
  | OutOfFuel => False
  end.
Proof.
  intros Hfuel. unfold timer_calibrate.
  destruct (decide (intr_get_level k = INTR_ON)); [|done].
  pose proof (calibrate_coarse_total fuel 10
                (set_loops_per_tick (wrap32 (Z.shiftl 1 10)) k, h)
                ltac:(lia) eq_refl ltac:(lia)) as Hc.
  destruct (calibrate_coarse fuel _) as [[k1 h1]| |]; [|done|done].
  destruct Hc as (e' & He' & Hk1). cbn [fst] in Hk1.
  assert (Hh : 2 ^ 9 <= loops_per_tick k1).
  { rewrite Hk1. apply Z.pow_le_mono_r; lia. }
  pose proof (calibrate_refine_from 9 fuel (loops_per_tick k1) 1 (k1, h1)
                Hh ltac:(lia) ltac:(lia) ltac:(lia)) as Hr.
  change (Z.of_nat 1) with 1 in Hr. rewrite Hr.
  exists (k1, h1). done.
Qed.

(** The second loop of [timer_calibrate] as it is written: with H the
    coarse power of two, it tries the nine bits H/2, H/4, ..., H/2^9 and
    stops in front of H/2^10; each bit is tried on top of H alone, by
    [too_many_loops (H | b)], and is or-ed into [loops_per_tick] exactly
    when that call answers false. *)
Theorem calibrate_refine_spec fuel high_bit (m : machine) :
  2 ^ 9 <= high_bit →
  (10 <= fuel)%nat →
  calibrate_refine fuel high_bit (Z.shiftr high_bit 1) m
  = Ret (refine_independent high_bit (candidate_bits high_bit 9) m)
  ∧ candidate_bits high_bit 9
    = [high_bit / 2; high_bit / 4; high_bit / 8; high_bit / 16;
       high_bit / 32; high_bit / 64; high_bit / 128; high_bit / 256;
       high_bit / 512].
Proof.
  intros Hh Hfuel. split; [|done].
  apply (calibrate_refine_from 9 fuel high_bit 1 m); [done|lia|lia|lia].
Qed.
End CalibrationFacts.

Lemma calibrate_refine_spec_witness :
  ∃ k, @calibrate_refine unit sample_hardware 10 (2 ^ 10)
         (Z.shiftr (2 ^ 10) 1) coarse_machine = Ret (k, tt)
       ∧ loops_per_tick k = 1534.
Proof.
  assert (Hh : 2 ^ 9 <= 2 ^ 10) by (vm_compute; discriminate).
  assert (Hf : (10 <= 10)%nat) by lia.
  eexists. split.
  - rewrite (proj1 (@calibrate_refine_spec unit sample_hardware 10 (2 ^ 10)
                      coarse_machine Hh Hf)).
    vm_compute. reflexivity.
  - vm_compute. reflexivity.
Defined.

(** C1: the refinement of [timer_calibrate] misses what it is meant to
    compute, the number of loops per timer tick.  With a tick of 1331 loop
    runs and H = 1024, the code ends on 1534, more than a tick, where trying
    each bit on top of the bits kept so far, down to H/2^10, ends on 1331.
    The bit 128 is kept although [too_many_loops (1280 | 128)] is true, 1280
    being the value accumulated when it is tried, because the call tests
    [high_bit | test_bit]; and the bit H/2^10 = 1 is never tried, although
    [too_many_loops (1330 | 1)] is false. *)
Lemma refinement_is_not_cumulative :
  ∃ k, @calibrate_refine unit sample_hardware 10 (2 ^ 10)
         (Z.shiftr (2 ^ 10) 1) coarse_machine = Ret (k, tt)
       ∧ loops_per_tick k = 1534
       ∧ loops_per_tick
           (fst (@refinement_as_specified unit sample_hardware (2 ^ 10)
                   coarse_machine)) = 1331
       ∧ Z.testbit (loops_per_tick k) 7 = true
       ∧ fst (@too_many_loops unit sample_hardware (Z.lor 1280 128)
                coarse_machine) = true
       ∧ Z.testbit (loops_per_tick k) 0 = false
       ∧ fst (@too_many_loops unit sample_hardware (Z.lor 1330 1)
                coarse_machine) = false.
Proof.
  eexists. split; [vm_compute; reflexivity|].
  vm_compute. repeat split.
Qed.

(** *** The real-time sleep helper *)

(** C5: [real_time_sleep (num, denom)] computes
    [whole = num * TIMER_FREQ / denom], the division rounding toward zero.
    When [whole > 0] it is [timer_sleep (whole)].  Otherwise, [denom] being
    a multiple of 1000, it calls [busy_wait] on
    [loops_per_tick * num / 1000 * TIMER_FREQ / (denom / 1000)], taken from
    left to right, whose loop body runs that many times (not at all when
    the number is negative); when [denom] is no multiple of 1000 the
    [ASSERT] stops the kernel.  The products are taken to fit [int64_t]. *)
Theorem real_time_sleep_spec F num denom k :
  intr_get_level k = INTR_ON →
  denom ≠ 0 →
  in_int64 (num * F) →
  in_int64 (num * F ÷ denom) →
  let whole := num * F ÷ denom in
  let loops := loops_per_tick k * num ÷ 1000 * F ÷ (denom ÷ 1000) in
  (0 < whole →
     real_time_sleep F num denom k = Ret (0%nat, timer_sleep whole k))
  ∧ (whole <= 0 → Z.rem denom 1000 = 0 →
     in_int64 (loops_per_tick k * num) →
     in_int64 (loops_per_tick k * num ÷ 1000 * F) →
     in_int64 loops →
     real_time_sleep F num denom k = Ret (busy_wait loops, k)
     ∧ busy_wait loops = Z.to_nat (Z.max loops 0)
     ∧ (0 <= loops → Z.of_nat (busy_wait loops) = loops))
  ∧ (whole <= 0 → Z.rem denom 1000 ≠ 0 →
     real_time_sleep F num denom k = Panic).
Proof.
  intros Hlevel Hdenom Hprod Hquot whole loops.
  unfold real_time_sleep.
  rewrite decide_False by done. rewrite decide_True by done.
  rewrite (wrap64_id (num * F)) by done.
  rewrite (wrap64_id (num * F ÷ denom)) by done. fold whole.
  split; [|split].
  - intros Hpos. by rewrite (proj2 (Z.ltb_lt 0 whole) Hpos).
  - intros Hneg Hrem H1 H2 H3.
    rewrite (proj2 (Z.ltb_ge 0 whole) Hneg).
    rewrite (proj2 (Z.eqb_eq _ 0) Hrem).
    assert (Hs : sub_tick_loops F num denom k = loops).
    { unfold sub_tick_loops. rewrite (wrap64_id (loops_per_tick k * num)) by done.
      rewrite (wrap64_id (loops_per_tick k * num ÷ 1000)).
      - rewrite (wrap64_id (loops_per_tick k * num ÷ 1000 * F)) by done.
        by apply wrap64_id.
      - unfold in_int64, INT64_MIN, INT64_MAX in *.
        destruct (Z_le_gt_dec 0 (loops_per_tick k * num)) as [Hge|Hlt].
        + pose proof (Z.quot_pos (loops_per_tick k * num) 1000 Hge ltac:(lia)).
          pose proof (Z.quot_le_upper_bound (loops_per_tick k * num) 1000
                        (2 ^ 63 - 1) ltac:(lia) ltac:(lia)). lia.
        + pose proof (Z.quot_opp_l (loops_per_tick k * num) 1000 ltac:(lia)) as Ho.
          pose proof (Z.quot_pos (- (loops_per_tick k * num)) 1000
                        ltac:(lia) ltac:(lia)).
          pose proof (Z.quot_le_upper_bound (- (loops_per_tick k * num)) 1000
                        (2 ^ 63) ltac:(lia) ltac:(lia)). lia. }
    rewrite Hs. split; [done|].
    assert (Hb : busy_wait loops = Z.to_nat (Z.max loops 0)).
    { unfold busy_wait. by rewrite busy_wait_from_spec. }
    split; [done|]. intros Hl. rewrite Hb, Z.max_l by lia. lia.
  - intros Hneg Hrem.
    rewrite (proj2 (Z.ltb_ge 0 whole) Hneg).
    by rewrite (proj2 (Z.eqb_neq _ 0) Hrem).
Qed.

Lemma real_time_sleep_spec_witness :
  timer_usleep 100 10000 calibrated_kernel
  = Ret (0%nat, timer_sleep 1 calibrated_kernel)
  ∧ timer_usleep 100 500 calibrated_kernel = Ret (102%nat, calibrated_kernel).
Proof.
  unfold timer_usleep.
  assert (Hl : intr_get_level calibrated_kernel = INTR_ON) by reflexivity.
  assert (Hd : 1000 * 1000 ≠ 0) by lia.
  assert (Hr : ∀ z, (INT64_MIN <=? z) && (z <=? INT64_MAX) = true → in_int64 z).
  { intros z [H1 H2]%andb_prop. split; by apply Z.leb_le. }
  assert (Ha : in_int64 (10000 * 100)) by (apply Hr; reflexivity).
  assert (Hb : in_int64 (10000 * 100 ÷ (1000 * 1000)))
    by (apply Hr; reflexivity).
  assert (Hc : in_int64 (500 * 100)) by (apply Hr; reflexivity).
  assert (He : in_int64 (500 * 100 ÷ (1000 * 1000)))
    by (apply Hr; reflexivity).
  split.
  - apply (real_time_sleep_spec 100 10000 (1000 * 1000) calibrated_kernel
             Hl Hd Ha Hb).
    vm_compute. reflexivity.
  - destruct (real_time_sleep_spec 100 500 (1000 * 1000) calibrated_kernel
                Hl Hd Hc He) as (_ & Hbusy & _).
    destruct Hbusy as (E & _ & _).
    + vm_compute. discriminate.
    + reflexivity.
    + apply Hr. reflexivity.
    + apply Hr. reflexivity.
    + apply Hr. reflexivity.
    + rewrite E. vm_compute. reflexivity.
Defined.

(** *** Ordered lists and ordered insertion *)

Lemma ordered_by_cons key x l :
  ordered_by key (x :: l) ↔ Forall (λ y, key x <= key y) l ∧ ordered_by key l.
Proof.
  split.
  - intros Ho. split.
    + apply Forall_forall. intros y [j Hj]%list_elem_of_lookup.
      by apply (Ho 0%nat (S j) x y); [lia| |].
    + intros i j a b Hij Ha Hb. by apply (Ho (S i) (S j)); [lia| |].
  - intros [Hx Hl] i j a b Hij Ha Hb.
    destruct i as [|i], j as [|j]; try lia; cbn in Ha, Hb.
    + injection Ha as <-. rewrite Forall_forall in Hx. apply Hx.
      by eapply list_elem_of_lookup_2.
    + apply (Hl i j); [lia|done|done].
Qed.

Lemma ordered_by_nil key : ordered_by key [].
Proof. intros i j a b _ Ha. by rewrite lookup_nil in Ha. Qed.

Lemma ordered_by_ext key1 key2 l :
  (∀ x, x ∈ l → key1 x = key2 x) → ordered_by key1 l → ordered_by key2 l.
Proof.
  intros Hk Ho i j a b Hij Ha Hb.
  rewrite <- (Hk a), <- (Hk b) by (by eapply list_elem_of_lookup_2).
  by apply (Ho i j).
Qed.

Lemma ordered_by_app_r key l1 l2 : ordered_by key (l1 ++ l2) → ordered_by key l2.
Proof.
  intros Ho i j a b Hij Ha Hb.
  apply (Ho (length l1 + i)%nat (length l1 + j)%nat); [lia| |].
  - by rewrite lookup_app_r, Nat.add_comm, Nat.add_sub by lia.
  - by rewrite lookup_app_r, Nat.add_comm, Nat.add_sub by lia.
Qed.

Lemma ordered_by_app key l1 l2 x y :
  ordered_by key (l1 ++ l2) → x ∈ l1 → y ∈ l2 → key x <= key y.
Proof.
  intros Ho [i Hi]%list_elem_of_lookup [j Hj]%list_elem_of_lookup.
  pose proof (lookup_lt_Some _ _ _ Hi).
  apply (Ho i (length l1 + j)%nat); [lia| |].
  - by rewrite lookup_app_l.
  - by rewrite lookup_app_r, Nat.add_comm, Nat.add_sub by lia.
Qed.

(** Where [list_insert_ordered] puts the new element: behind every element
    it is not less than, in front of the first element it is less than. *)
Lemma list_insert_ordered_split l t less :
  ∃ l1 l2,
    l = l1 ++ l2
    ∧ list_insert_ordered l t less = l1 ++ t :: l2
    ∧ Forall (λ x, less t x = false) l1
    ∧ match l2 with [] => True | y :: _ => less t y = true end.
Proof.
  induction l as [|e rest IH].
  - exists [], []. by repeat split.
  - cbn. destruct (less t e) eqn:Hlt.
    + exists [], (e :: rest). by repeat split.
    + destruct IH as (l1 & l2 & -> & Hins & Hl1 & Hl2).
      exists (e :: l1), l2. rewrite Hins. repeat split; [|done].
      by constructor.
Qed.

Lemma elem_of_list_insert_ordered l t less x :
  x ∈ list_insert_ordered l t less ↔ x = t ∨ x ∈ l.
Proof.
  destruct (list_insert_ordered_split l t less) as (l1 & l2 & -> & -> & _).
  rewrite !elem_of_app, elem_of_cons. tauto.
Qed.

Lemma ordered_by_insert key l t less :
  (∀ a b, less a b = (key a <? key b)) →
  ordered_by key l → ordered_by key (list_insert_ordered l t less).
Proof.
  intros Hless. induction l as [|e rest IH]; intros Ho.
  - cbn. apply ordered_by_cons. split; [constructor|apply ordered_by_nil].
  - apply ordered_by_cons in Ho as [He Hrest]. cbn.
    rewrite Hless. destruct (key t <? key e) eqn:Hlt.
    + apply Z.ltb_lt in Hlt. apply ordered_by_cons. split.
      * constructor; [lia|]. eapply Forall_impl; [exact He|].
        cbn. intros y Hy. lia.
      * by apply ordered_by_cons.
    + apply Z.ltb_ge in Hlt. apply ordered_by_cons. split; [|by apply IH].
      apply Forall_forall. intros y [->|Hy]%elem_of_list_insert_ordered; [done|].
      rewrite Forall_forall in He. by apply He.
Qed.

(** *** What the events do to the kernel *)

Lemma timer_sleep_block_fields start n k :
  let t := thread_current k in
  let k' := timer_sleep_block start n k in
  (∀ a b, wake_up_cmp (set_wake_tick t (wrap64 (start + n))
                         (set_level INTR_OFF k)) a b
          = (wake_of k' a <? wake_of k' b))
  ∧ sleeping_list k'
    = list_insert_ordered (sleeping_list k) t
        (wake_up_cmp (set_wake_tick t (wrap64 (start + n))
                        (set_level INTR_OFF k)))
  ∧ (∀ x, wake_of k' x
          = if decide (t = x) then wrap64 (start + n) else wake_of k x)
  ∧ (∀ x, status_of k' x
          = if decide (t = x) then THREAD_BLOCKED else status_of k x)
  ∧ ticks k' = ticks k
  ∧ unblocked k' = unblocked k
  ∧ running k' = running k
  ∧ level k' = INTR_OFF.
Proof.
  cbn zeta. unfold timer_sleep_block, intr_disable, intr_set_level.
  cbn zeta. unfold thread_block, thread_current. cbn [running set_level
    set_wake_tick set_threads set_sleeping_list].
  set (t := running k). set (w := wrap64 (start + n)).
  set (k2 := set_wake_tick t w (set_level INTR_OFF k)).
  set (k3 := set_sleeping_list _ k2).
  assert (Hw : ∀ x, wake_of (set_status t THREAD_BLOCKED k3) x
                    = if decide (t = x) then w else wake_of k x).
  { intros x. subst k3 k2. by autorewrite with kernel. }
  repeat split; try done.
  - intros a b. unfold wake_up_cmp. fold (wake_of k2 a) (wake_of k2 b).
    rewrite !Hw. subst k2. by autorewrite with kernel.
  - intros x. subst k3 k2. by autorewrite with kernel.
Qed.

Lemma schedule_fields t k :
  let k' := schedule t k in
  sleeping_list k' = sleeping_list k
  ∧ ticks k' = ticks k
  ∧ unblocked k' = unblocked k
  ∧ (∀ x, wake_of k' x = wake_of k x)
  ∧ (∀ x, x ≠ t →
          ¬ (x = thread_current k ∧ status_of k x = THREAD_RUNNING) →
          status_of k' x = status_of k x).
Proof.
  cbn zeta. unfold schedule.
  destruct (decide (status_of k (thread_current k) = THREAD_RUNNING)) as [Hr|Hr].
  - repeat split; try done.
    + intros x. change (wake_of (set_level INTR_ON (set_running t ?k0)) x)
        with (wake_of k0 x). by autorewrite with kernel.
    + intros x Hx Hc.
      change (status_of (set_level INTR_ON (set_running t ?k0)) x)
        with (status_of k0 x).
      autorewrite with kernel. rewrite decide_False by done.
      rewrite decide_False; [done|]. intros <-. by apply Hc.
  - repeat split; try done.
    + intros x. change (wake_of (set_level INTR_ON (set_running t ?k0)) x)
        with (wake_of k0 x). by autorewrite with kernel.
    + intros x Hx Hc.
      change (status_of (set_level INTR_ON (set_running t ?k0)) x)
        with (status_of k0 x).
      autorewrite with kernel. by rewrite decide_False.
Qed.

Lemma enabled_sleep_running start n k :
  enabled (EvSleep start n) k = true →
  status_of k (thread_current k) = THREAD_RUNNING.
Proof. cbn. intros [_ Hr]%andb_prop. by apply bool_decide_eq_true in Hr. Qed.

(** *** The invariants are kept *)

Lemma later_sleepers_suffix k now l :
  ∀ x, x ∈ later_sleepers k now l → x ∈ l.
Proof.
  intros x Hx. rewrite <- (due_later_app k now l). apply elem_of_app. by right.
Qed.

Lemma due_sleepers_due k now l :
  ∀ x, x ∈ due_sleepers k now l → wake_of k x <= now.
Proof.
  induction l as [|t l IH]; intros x; cbn; [by intros ?%elem_of_nil|].
  destruct (wake_of k t <=? now) eqn:Hdue; [|by intros ?%elem_of_nil].
  intros [->|Hx]%elem_of_cons; [by apply Z.leb_le|by apply IH].
Qed.

Lemma later_sleepers_head k now l :
  match later_sleepers k now l with
  | [] => True
  | t :: _ => now < wake_of k t
  end.
Proof.
  induction l as [|t l IH]; cbn; [done|].
  destruct (wake_of k t <=? now) eqn:Hdue; [done|]. by apply Z.leb_gt.
Qed.

(** In an ordered queue nobody behind the due sleepers is due. *)
Lemma later_sleepers_later k now l :
  ordered_by (wake_of k) l →
  ∀ x, x ∈ later_sleepers k now l → now < wake_of k x.
Proof.
  intros Ho x Hx.
  assert (Hol : ordered_by (wake_of k) (later_sleepers k now l)).
  { apply (ordered_by_app_r _ (due_sleepers k now l)).
    by rewrite due_later_app. }
  pose proof (later_sleepers_head k now l) as Hhead.
  destruct (later_sleepers k now l) as [|t rest]; [by apply elem_of_nil in Hx|].
  apply ordered_by_cons in Hol as [Ht _]. rewrite Forall_forall in Ht.
  apply elem_of_cons in Hx as [->|Hx]; [done|].
  specialize (Ht x Hx). lia.
Qed.

Lemma sq_ordered_tick_effect k k' :
  tick_effect k k' → sq_ordered k → sq_ordered k'.
Proof.
  intros (_ & Hsq & _ & _ & _ & _ & _ & Hw & _) Ho. unfold sq_ordered.
  rewrite Hsq. apply (ordered_by_ext (wake_of k)); [done|].
  apply (ordered_by_app_r _ (due_sleepers k (wrap64 (ticks k + 1))
                               (sleeping_list k))).
  by rewrite due_later_app.
Qed.

Lemma kernel_inv_tick_effect k k' :
  tick_effect k k' → kernel_inv k → kernel_inv k'.
Proof.
  intros Heff [Ho Hnd Hbl]. pose proof Heff as Heff'.
  destruct Heff' as (_ & Hsq & _ & _ & _ & _ & _ & Hw & Hst).
  pose proof (due_later_app k (wrap64 (ticks k + 1)) (sleeping_list k)) as Happ.
  split.
  - by apply (sq_ordered_tick_effect k).
  - rewrite Hsq. rewrite <- Happ in Hnd. by apply NoDup_app in Hnd as (_ & _ & ?).
  - intros t Ht. rewrite Hsq in Ht. rewrite Hst.
    rewrite <- Happ in Hnd. apply NoDup_app in Hnd as (_ & Hdis & _).
    rewrite decide_False by (intros Hin; by apply (Hdis t)).
    apply Hbl. by eapply later_sleepers_suffix.
Qed.

Lemma sq_ordered_sleep start n k :
  sq_ordered k → thread_current k ∉ sleeping_list k →
  sq_ordered (timer_sleep_block start n k).
Proof.
  intros Ho Hnot.
  destruct (timer_sleep_block_fields start n k)
    as (Hless & Hsq & Hw & _). unfold sq_ordered. rewrite Hsq.
  apply ordered_by_insert; [done|].
  apply (ordered_by_ext (wake_of k)); [|done].
  intros x Hx. rewrite Hw. rewrite decide_False; [done|]. by intros <-.
Qed.

Lemma kernel_inv_sleep start n k :
  kernel_inv k → status_of k (thread_current k) = THREAD_RUNNING →
  kernel_inv (timer_sleep_block start n k).
Proof.
  intros [Ho Hnd Hbl] Hrun.
  assert (Hnot : thread_current k ∉ sleeping_list k).
  { intros Hin. apply Hbl in Hin. congruence. }
  destruct (timer_sleep_block_fields start n k)
    as (_ & Hsq & _ & Hst & _).
  split.
  - by apply sq_ordered_sleep.
  - rewrite Hsq.
    destruct (list_insert_ordered_split (sleeping_list k) (thread_current k)
                (wake_up_cmp (set_wake_tick (thread_current k)
                                (wrap64 (start + n)) (set_level INTR_OFF k))))
      as (l1 & l2 & Hl & -> & _).
    rewrite Hl in Hnd, Hnot. rewrite <- Permutation_middle.
    by apply NoDup_cons.
  - intros t Ht. rewrite Hsq in Ht.
    apply elem_of_list_insert_ordered in Ht. rewrite Hst.
    destruct (decide (thread_current k = t)); [done|].
    destruct Ht as [->|Ht]; [done|]. by apply Hbl.
Qed.

Lemma kernel_inv_schedule t k :
  kernel_inv k → status_of k t = THREAD_READY → kernel_inv (schedule t k).
Proof.
  intros [Ho Hnd Hbl] Hready.
  destruct (schedule_fields t k) as (Hsq & _ & _ & Hw & Hst).
  split.
  - unfold sq_ordered. rewrite Hsq.
    by apply (ordered_by_ext (wake_of k)).
  - by rewrite Hsq.
  - intros x Hx. rewrite Hsq in Hx. pose proof (Hbl x Hx) as Hb.
    rewrite Hst; [done| |].
    + intros ->. congruence.
    + intros [_ Hr]. congruence.
Qed.

Lemma kernel_inv_exec ev k :
  kernel_inv k → enabled ev k = true → kernel_inv (exec ev k).
Proof.
  intros Hinv Hen. destruct ev as [|start n|t].
  - apply (kernel_inv_tick_effect k); [|done]. apply exec_tick_effect.
  - cbn [exec]. destruct (n <=? 0); [done|].
    apply kernel_inv_sleep; [done|]. by eapply enabled_sleep_running.
  - cbn [exec]. apply kernel_inv_schedule; [done|].
    cbn in Hen. by apply bool_decide_eq_true in Hen.
Qed.

Lemma run_cons ev evs k k' :
  run (ev :: evs) k = Some k' ↔
  enabled ev k = true ∧ run evs (exec ev k) = Some k'.
Proof. cbn. destruct (enabled ev k); [tauto|]. split; [done|]. by intros [? _]. Qed.

Lemma kernel_inv_run evs k k' :
  kernel_inv k → run evs k = Some k' → kernel_inv k'.
Proof.
  revert k. induction evs as [|ev evs IH]; intros k Hinv Hrun.
  - cbn in Hrun. by injection Hrun as <-.
  - apply run_cons in Hrun as [Hen Hrun].
    apply (IH (exec ev k)); [|done]. by apply kernel_inv_exec.
Qed.

Lemma kernel_inv_timer_init F k : kernel_inv (timer_init F k).
Proof.
  split.
  - apply ordered_by_nil.
  - apply NoDup_nil_2.
  - intros t Ht. by apply elem_of_nil in Ht.
Qed.

Lemma timer_sleep_positive n k :
  0 < n → timer_sleep n k = timer_sleep_block (ticks k) n k.
Proof.
  intros Hn. rewrite timer_sleep_unfold. cbn [exec].
  by rewrite (proj2 (Z.leb_gt n 0) Hn).
Qed.

(** C6: the sleep queue is in ascending order of [wake_tick] after every
    operation: for two members A then B in queue order, A.wake_tick <=
    B.wake_tick.  The tick handler keeps the order, [timer_sleep] keeps it
    (its caller runs, so it is not in the queue), and so does every run of
    the kernel, in particular every run from [timer_init] on. *)
Theorem sleep_queue_stays_ordered :
  (∀ k, sq_ordered k → sq_ordered (timer_interrupt k))
  ∧ (∀ k n, sq_ordered k → thread_current k ∉ sleeping_list k →
            sq_ordered (timer_sleep n k))
  ∧ (∀ k evs k', kernel_inv k → run evs k = Some k' → sq_ordered k')
  ∧ (∀ F k0 evs k', run evs (timer_init F k0) = Some k' → sq_ordered k').
Proof.
  split; [|split; [|split]].
  - intros k Ho. apply (sq_ordered_tick_effect k); [|done].
    apply timer_interrupt_effect.
  - intros k n Ho Hnot. rewrite timer_sleep_unfold. cbn [exec].
    destruct (n <=? 0); [done|]. by apply sq_ordered_sleep.
  - intros k evs k' Hinv Hrun. by destruct (kernel_inv_run evs k k' Hinv Hrun).
  - intros F k0 evs k' Hrun.
    by destruct (kernel_inv_run evs _ k' (kernel_inv_timer_init F k0) Hrun).
Qed.

Lemma sleep_queue_stays_ordered_witness :
  let k0 := timer_init 100 boot_kernel in
  let k1 := schedule 1%nat (timer_sleep 3 k0) in
  let k2 := schedule 2%nat (timer_sleep 1 k1) in
  let k3 := schedule 3%nat (timer_sleep 2 k2) in
  (sleeping_list (timer_sleep 1 k1) = [1%nat; 0%nat]
   ∧ sq_ordered (timer_sleep 1 k1))
  ∧ (sleeping_list (timer_sleep 2 k2) = [1%nat; 2%nat; 0%nat]
     ∧ map (wake_of (timer_sleep 2 k2)) (sleeping_list (timer_sleep 2 k2))
       = [1; 2; 3]
     ∧ sq_ordered (timer_sleep 2 k2))
  ∧ (sleeping_list (timer_interrupt k3) = [2%nat; 0%nat]
     ∧ unblocked (timer_interrupt k3) = [1%nat]
     ∧ sq_ordered (timer_interrupt k3))
  ∧ (∃ k', run [EvSleep 0 3; EvSwitch 1%nat; EvSleep 0 1; EvSwitch 2%nat;
                EvSleep 0 2; EvSwitch 3%nat; EvTick; EvTick] k0 = Some k'
           ∧ sleeping_list k' = [0%nat]
           ∧ unblocked k' = [1%nat; 2%nat]
           ∧ sq_ordered k').
Proof.
  intros k0 k1 k2 k3.
  destruct sleep_queue_stays_ordered as (Htick & Hsleep & _ & Hinit).
  assert (Hk1 : run [EvSleep 0 3; EvSwitch 1%nat] k0 = Some k1)
    by (vm_compute; reflexivity).
  assert (Hk2 : run [EvSleep 0 3; EvSwitch 1%nat; EvSleep 0 1; EvSwitch 2%nat]
                  k0 = Some k2) by (vm_compute; reflexivity).
  assert (Hk3 : run [EvSleep 0 3; EvSwitch 1%nat; EvSleep 0 1; EvSwitch 2%nat;
                     EvSleep 0 2; EvSwitch 3%nat] k0 = Some k3)
    by (vm_compute; reflexivity).
  pose (K := exec EvTick (exec EvTick k3)).
  assert (HK : run [EvSleep 0 3; EvSwitch 1%nat; EvSleep 0 1; EvSwitch 2%nat;
                    EvSleep 0 2; EvSwitch 3%nat; EvTick; EvTick] k0 = Some K)
    by (vm_compute; reflexivity).
  split; [|split; [|split]].
  - split; [vm_compute; reflexivity|].
    apply Hsleep.
    + exact (Hinit 100 boot_kernel _ k1 Hk1).
    + vm_compute. intros Hin. apply elem_of_cons in Hin as [Hin|Hin].
      * discriminate Hin.
      * by apply elem_of_nil in Hin.
  - split; [vm_compute; reflexivity|]. split; [vm_compute; reflexivity|].
    apply Hsleep.
    + exact (Hinit 100 boot_kernel _ k2 Hk2).
    + vm_compute. intros Hin. apply elem_of_cons in Hin as [Hin|Hin].
      * discriminate Hin.
      * apply elem_of_cons in Hin as [Hin|Hin]; [discriminate Hin|].
        by apply elem_of_nil in Hin.
  - split; [vm_compute; reflexivity|]. split; [vm_compute; reflexivity|].
    apply Htick. exact (Hinit 100 boot_kernel _ k3 Hk3).
  - exists K. split; [exact HK|]. split; [vm_compute; reflexivity|].
    split; [vm_compute; reflexivity|].
    exact (Hinit 100 boot_kernel _ K HK).
Defined.

(** *** The tick handler *)

(** C3, as the code has it: on every tick the handler first adds one to the
    counter and then drains the queue from the head against the new count
    [now]: while the queue is not empty and the head's wake_tick <= [now] it
    removes the head and unblocks it, and it stops at the first element with
    wake_tick > [now].  In an ordered queue a sleeper whose wake_tick is the
    counter at handler entry, or one more, is unblocked during that tick, and
    one whose wake_tick is two more is not. *)
Theorem timer_interrupt_drains k :
  in_int64 (ticks k) →
  ticks k < INT64_MAX →
  let now := ticks k + 1 in
  let k' := timer_interrupt k in
  let woken := due_sleepers k now (sleeping_list k) in
  ticks k' = now
  ∧ sleeping_list k = woken ++ sleeping_list k'
  ∧ unblocked k' = unblocked k ++ woken
  ∧ (∀ t, t ∈ woken → wake_of k t <= now ∧ status_of k' t = THREAD_READY)
  ∧ match sleeping_list k' with [] => True | t :: _ => now < wake_of k t end
  ∧ (∀ t, t ∉ woken → status_of k' t = status_of k t)
  ∧ (sq_ordered k → ∀ t, t ∈ sleeping_list k →
       (wake_of k t <= now → t ∈ woken)
       ∧ (now < wake_of k t → t ∈ sleeping_list k' ∧ t ∉ woken)
       ∧ (wake_of k t = ticks k ∨ wake_of k t = ticks k + 1 →
          status_of k' t = THREAD_READY ∧ t ∈ unblocked k')
       ∧ (wake_of k t = ticks k + 2 →
          status_of k' t = status_of k t ∧ t ∈ sleeping_list k')).
Proof.
  intros Hin Hmax now k' woken.
  destruct (timer_interrupt_effect k)
    as ((Ht & Hsq & Hun & _ & _ & _ & _ & Hw & Hst) & _).
  assert (Hnow : wrap64 (ticks k + 1) = now).
  { apply wrap64_id. unfold in_int64 in *. lia. }
  rewrite Hnow in *. fold k' woken in Ht, Hsq, Hun, Hw, Hst.
  pose proof (due_later_app k now (sleeping_list k)) as Happ.
  rewrite <- Hsq in Happ. fold woken in Happ.
  assert (Hwoken : ∀ t, t ∈ woken →
                        wake_of k t <= now ∧ status_of k' t = THREAD_READY).
  { intros t Hin'. split; [by apply (due_sleepers_due k now (sleeping_list k))|].
    rewrite Hst. by rewrite decide_True. }
  assert (Hrest : ∀ t, t ∉ woken → status_of k' t = status_of k t).
  { intros t Hnot. rewrite Hst. by rewrite decide_False. }
  split; [done|]. split; [done|]. split; [done|]. split; [done|].
  split; [rewrite Hsq; apply later_sleepers_head|]. split; [done|].
  intros Ho t Htin.
  assert (Hlater : ∀ x, x ∈ sleeping_list k' → now < wake_of k x).
  { intros x Hx. rewrite Hsq in Hx. by apply (later_sleepers_later k now _ Ho). }
  assert (Hdue : wake_of k t <= now → t ∈ woken).
  { intros Hle. rewrite <- Happ in Htin.
    apply elem_of_app in Htin as [?|Hl]; [done|]. apply Hlater in Hl. lia. }
  assert (Hnotdue : now < wake_of k t → t ∈ sleeping_list k' ∧ t ∉ woken).
  { intros Hlt.
    assert (Hnot : t ∉ woken) by (intros Hx; apply Hwoken in Hx; lia).
    split; [|done]. rewrite <- Happ in Htin.
    by apply elem_of_app in Htin as [?|?]. }
  split; [done|]. split; [done|]. split.
  - intros Hwake. assert (Hx : t ∈ woken) by (apply Hdue; lia).
    split; [by apply Hwoken|]. rewrite Hun. apply elem_of_app. by right.
  - intros Hwake. destruct Hnotdue as [Hx Hnot]; [lia|]. split; [|done].
    by apply Hrest.
Qed.

Lemma timer_interrupt_drains_witness :
  ticks (timer_interrupt one_tick_sleeper) = 1
  ∧ unblocked (timer_interrupt one_tick_sleeper) = [0%nat].
Proof.
  assert (Hin : in_int64 (ticks one_tick_sleeper))
    by (vm_compute; split; discriminate).
  assert (Hmax : ticks one_tick_sleeper < INT64_MAX) by (vm_compute; done).
  destruct (timer_interrupt_drains one_tick_sleeper Hin Hmax)
    as (Ht & _ & Hun & _).
  split; [exact Ht|]. rewrite Hun. vm_compute. reflexivity.
Defined.

(** C3 as stated fails: a sleeper whose wake_tick is one more than the tick
    counter at handler entry is unblocked during that very tick, because the
    handler compares with the counter it has just incremented. *)
Lemma sleeper_one_ahead_is_woken :
  sleeping_list one_tick_sleeper = [0%nat]
  ∧ status_of one_tick_sleeper 0%nat = THREAD_BLOCKED
  ∧ wake_of one_tick_sleeper 0%nat = ticks one_tick_sleeper + 1
  ∧ sleeping_list (timer_interrupt one_tick_sleeper) = []
  ∧ status_of (timer_interrupt one_tick_sleeper) 0%nat = THREAD_READY
  ∧ unblocked (timer_interrupt one_tick_sleeper) = [0%nat].
Proof. vm_compute. repeat split. Qed.

(** *** A sleeper stays blocked until its wake tick *)

(** Along any run, a thread that sleeps with wake tick [w] stays blocked in
    the queue until the counter has reached [w]. *)
Lemma sleeper_waits (w : Z) (T : tid) evs :
  ∀ k k2,
    in_int64 (ticks k) →
    ticks k + count_ticks evs <= INT64_MAX →
    (status_of k T = THREAD_BLOCKED ∧ wake_of k T = w ∧ T ∈ sleeping_list k)
    ∨ w <= ticks k →
    run evs k = Some k2 →
    (status_of k2 T = THREAD_BLOCKED ∧ wake_of k2 T = w
     ∧ T ∈ sleeping_list k2)
    ∨ w <= ticks k2.
Proof.
  induction evs as [|ev evs IH]; intros k k2 Hin Hmax HJ Hrun.
  - cbn in Hrun. by injection Hrun as <-.
  - apply run_cons in Hrun as [Hen Hrun]. cbn [count_ticks] in Hmax.
    pose proof (count_ticks_nonneg evs) as Hpos.
    pose proof (ticks_exec ev k) as Hticks.
    assert (Hstep : ticks (exec ev k) = ticks k + (if is_tick ev then 1 else 0)).
    { rewrite Hticks. destruct (is_tick ev); [|lia].
      apply wrap64_id. unfold in_int64 in *. lia. }
    apply (IH (exec ev k) k2); [| |clear IH Hrun|done].
    { unfold in_int64 in *. destruct (is_tick ev); lia. }
    { destruct (is_tick ev); lia. }
    destruct HJ as [(Hst & Hw & HT)|Hle];
      [|right; destruct (is_tick ev); lia].
    destruct ev as [|start n|t].
    + destruct (exec_tick_effect k)
        as ((_ & Hsq & _ & _ & _ & _ & _ & Hw' & Hst') & _).
      cbn [is_tick] in Hstep, Hmax.
      assert (Hnow : wrap64 (ticks k + 1) = ticks k + 1).
      { apply wrap64_id. unfold in_int64 in *. lia. }
      rewrite Hnow in *.
      destruct (decide (T ∈ due_sleepers k (ticks k + 1) (sleeping_list k)))
        as [Hdue|Hnot].
      * right. apply due_sleepers_due in Hdue. lia.
      * left. rewrite Hst', Hw', Hsq. rewrite decide_False by done.
        split; [done|]. split; [done|].
        rewrite <- (due_later_app k (ticks k + 1) (sleeping_list k)) in HT.
        by apply elem_of_app in HT as [?|?].
    + cbn [exec]. destruct (n <=? 0); [by left|].
      pose proof (enabled_sleep_running _ _ _ Hen) as Hrun'.
      destruct (timer_sleep_block_fields start n k)
        as (_ & Hsq & Hw' & Hst' & _).
      assert (Hne : thread_current k ≠ T).
      { intros Heq. rewrite Heq in Hrun'. congruence. }
      left. rewrite Hst', Hw', Hsq. rewrite !decide_False by done.
      split; [done|]. split; [done|].
      apply elem_of_list_insert_ordered. by right.
    + cbn [exec]. cbn in Hen. apply bool_decide_eq_true in Hen.
      destruct (schedule_fields t k) as (Hsq & _ & _ & Hw' & Hst').
      left. rewrite Hw', Hsq. split; [|done]. rewrite Hst'; [done| |].
      * intros ->. congruence.
      * intros [_ Hr]. congruence.
Qed.

(** C2: a thread calls [timer_sleep (n)] with [n > 0] in state [k0], where
    it reads [start]; after whatever happens before it masks interrupts
    ([evs0]) it enqueues itself and blocks; [evs] is any run of the kernel
    after that.  As long as the counter is below [start + n] the thread is
    blocked, so it cannot have been given the CPU; whenever it is not
    blocked, in particular when it runs again and the call returns,
    [timer_ticks () >= start + n].  The sum [start + n] and the counter are
    taken to stay within [int64_t]. *)
Theorem timer_sleep_not_early k0 evs0 k n evs k2 :
  let start := fst (timer_ticks k0) in
  let T := thread_current k0 in
  0 < n →
  in_int64 (start + n) →
  run evs0 k0 = Some k →
  thread_current k = T →
  enabled (EvSleep start n) k = true →
  in_int64 (ticks k) →
  ticks k + count_ticks evs <= INT64_MAX →
  run evs (timer_sleep_block start n k) = Some k2 →
  (fst (timer_ticks k2) < start + n → status_of k2 T = THREAD_BLOCKED)
  ∧ (status_of k2 T ≠ THREAD_BLOCKED → start + n <= fst (timer_ticks k2)).
Proof.
  intros start T Hn Hsum Hrun0 HT Hen Hin Hmax Hrun.
  destruct (timer_sleep_block_fields start n k)
    as (_ & Hsq & Hw & Hst & Hticks & _).
  rewrite HT in Hsq, Hw, Hst.
  destruct (sleeper_waits (start + n) T evs (timer_sleep_block start n k) k2)
    as [(Hb & _)|Hle]; [by rewrite Hticks|by rewrite Hticks| |done| |].
  - left. rewrite Hst, Hw, Hsq. rewrite !decide_True by done.
    split; [done|]. split; [by apply wrap64_id|].
    apply elem_of_list_insert_ordered. by left.
  - split; [done|]. intros Hnb. congruence.
  - rewrite timer_ticks_spec. cbn [fst]. split; [lia|done].
Qed.

Lemma timer_sleep_not_early_witness :
  ∃ k k2,
    run [EvTick] boot_kernel = Some k
    ∧ run [EvSwitch 1%nat; EvTick; EvSwitch 0%nat] (timer_sleep_block 0 2 k)
      = Some k2
    ∧ status_of k2 0%nat = THREAD_RUNNING
    ∧ 0 + 2 <= fst (timer_ticks k2).
Proof.
  eexists. eexists. split; [vm_compute; reflexivity|].
  split; [vm_compute; reflexivity|]. split; [vm_compute; reflexivity|].
  refine (proj2 (timer_sleep_not_early boot_kernel [EvTick] _ 2
                   [EvSwitch 1%nat; EvTick; EvSwitch 0%nat] _
                   _ _ _ _ _ _ _ _) _).
  - lia.
  - vm_compute. split; discriminate.
  - vm_compute. reflexivity.
  - vm_compute. reflexivity.
  - vm_compute. reflexivity.
  - vm_compute. split; discriminate.
  - vm_compute. discriminate.
  - vm_compute. reflexivity.
  - vm_compute. discriminate.
Defined.

(** *** Queue order is wake-up order *)

Lemma precedes_app a b l extra : precedes a b l → precedes a b (l ++ extra).
Proof.
  intros (l1 & l2 & -> & Hb & Ha). exists l1, (l2 ++ extra).
  by rewrite <- app_assoc.
Qed.

Lemma precedes_app_l a b l extra :
  b ∉ l → precedes a b extra → precedes a b (l ++ extra).
Proof.
  intros Hnot (l1 & l2 & -> & Hb & Ha). exists (l ++ l1), l2.
  rewrite <- app_assoc. split; [done|]. rewrite !elem_of_app. tauto.
Qed.

Lemma precedes_app_r a b l extra :
  b ∉ l → a ∈ l → b ∈ extra → precedes a b (l ++ extra).
Proof.
  intros Hnot Ha Hb.
  destruct (list_elem_of_split_l extra b Hb) as (l1 & l2 & -> & Hb1).
  exists (l ++ l1), l2. rewrite <- app_assoc. split; [done|].
  rewrite !elem_of_app. tauto.
Qed.

Lemma sublist_pair_precedes a b l :
  NoDup l → [a; b] `sublist_of` l → precedes a b l.
Proof.
  intros Hnd Hsub.
  assert (Hb : b ∈ l).
  { apply (sublist_subseteq _ _ Hsub). apply elem_of_cons. right.
    apply list_elem_of_here. }
  destruct (list_elem_of_split_l l b Hb) as (l1 & l2 & -> & Hb1).
  exists l1, l2. split; [done|]. split; [done|].
  apply NoDup_app in Hnd as (_ & _ & Hnd2). apply NoDup_cons in Hnd2 as [Hb2 _].
  apply sublist_app_r in Hsub as (k1 & k2 & Heq & Hk1 & Hk2).
  destruct k1 as [|x k1].
  - cbn in Heq. subst k2. exfalso. apply Hb2.
    apply sublist_cons_r in Hk2 as [Hk2|(l' & Heq & Hk2)].
    + apply (sublist_subseteq _ _ Hk2). apply elem_of_cons. right.
      apply list_elem_of_here.
    + injection Heq as -> <-. apply (sublist_subseteq _ _ Hk2).
      apply list_elem_of_here.
  - injection Heq as <- Heq. apply (sublist_subseteq _ _ Hk1).
    apply list_elem_of_here.
Qed.

(** A pair in order in [l1 ++ l2], a list without duplicates: both are in
    [l1], in order; or only the first is; or both are in [l2], in order. *)
Lemma sublist_pair_split a b l1 l2 :
  NoDup (l1 ++ l2) → [a; b] `sublist_of` l1 ++ l2 →
  (b ∈ l1 ∧ precedes a b l1)
  ∨ ((b ∉ l1) ∧ a ∈ l1)
  ∨ ((b ∉ l1) ∧ (a ∉ l1) ∧ [a; b] `sublist_of` l2).
Proof.
  intros Hnd Hsub. pose proof Hnd as Hnd'.
  apply NoDup_app in Hnd' as (Hnd1 & Hdis & Hnd2).
  apply sublist_app_r in Hsub as (k1 & k2 & Heq & Hk1 & Hk2).
  destruct k1 as [|x [|y k1]].
  - cbn in Heq. subst k2. right. right.
    assert (Ha : a ∈ l2).
    { apply (sublist_subseteq _ _ Hk2). apply list_elem_of_here. }
    assert (Hb : b ∈ l2).
    { apply (sublist_subseteq _ _ Hk2). apply elem_of_cons. right.
      apply list_elem_of_here. }
    split; [|split; [|done]]; intros Hin; by apply (Hdis _ Hin).
  - cbn in Heq. assert (Hx : x = a) by congruence.
    assert (Hk : k2 = [b]) by congruence. subst x k2. right. left.
    assert (Ha : a ∈ l1).
    { apply (sublist_subseteq _ _ Hk1). apply list_elem_of_here. }
    assert (Hb : b ∈ l2).
    { apply (sublist_subseteq _ _ Hk2). apply list_elem_of_here. }
    split; [|done]. intros Hin. by apply (Hdis _ Hin).
  - destruct k1; [|done]. cbn in Heq. assert (Hx : x = a) by congruence.
    assert (Hy : y = b) by congruence. subst x y. left.
    split; [|by apply sublist_pair_precedes].
    apply (sublist_subseteq _ _ Hk1). apply elem_of_cons. right.
    apply list_elem_of_here.
Qed.

Lemma fifo_inv_exec t1 t base ev k :
  fifo_inv t1 t base k → enabled ev k = true → fifo_inv t1 t base (exec ev k).
Proof.
  intros (log & Hlog & Hin & Hout) Hen.
  destruct ev as [|start n|t'].
  - destruct (exec_tick_effect k) as (Heff & _). pose proof Heff as Heff'.
    destruct Heff' as (_ & Hsq & Hun & _).
    set (due := due_sleepers k (wrap64 (ticks k + 1)) (sleeping_list k)) in *.
    exists (log ++ due). split; [by rewrite Hun, Hlog, <- app_assoc|].
    destruct (decide (t ∈ log)) as [Htl|Htl].
    { split; [intros _; by apply precedes_app, Hin|].
      rewrite elem_of_app. tauto. }
    destruct (Hout Htl) as [Ht1|[Hinv Hsub]].
    { destruct (decide (t ∈ due)) as [Htd|Htd].
      - split; [intros _; by apply precedes_app_r|]. rewrite elem_of_app. tauto.
      - split; [rewrite elem_of_app; tauto|]. intros _. left.
        apply elem_of_app. by left. }
    pose proof (due_later_app k (wrap64 (ticks k + 1)) (sleeping_list k)) as Happ.
    fold due in Happ. rewrite <- Hsq in Happ. rewrite <- Happ in Hsub.
    pose proof (inv_nodup k Hinv) as Hnd. rewrite <- Happ in Hnd.
    destruct (sublist_pair_split t1 t _ _ Hnd Hsub)
      as [[Htd Hpre]|[[Htd Ht1]|(Htd & Ht1 & Hsub')]].
    + split; [intros _; by apply precedes_app_l|]. rewrite elem_of_app. tauto.
    + split; [rewrite elem_of_app; tauto|]. intros _. left.
      apply elem_of_app. by right.
    + split; [rewrite elem_of_app; tauto|]. intros _. right.
      split; [by apply (kernel_inv_tick_effect k)|done].
  - cbn [exec]. destruct (n <=? 0); [by exists log|].
    pose proof (enabled_sleep_running _ _ _ Hen) as Hrun.
    destruct (timer_sleep_block_fields start n k) as (_ & Hsq & _ & _ & _ & Hun & _).
    exists log. split; [by rewrite Hun|]. split; [done|].
    intros Htl. destruct (Hout Htl) as [?|[Hinv Hsub]]; [by left|right].
    split; [by apply kernel_inv_sleep|]. rewrite Hsq.
    destruct (list_insert_ordered_split (sleeping_list k) (thread_current k)
                (wake_up_cmp (set_wake_tick (thread_current k)
                                (wrap64 (start + n)) (set_level INTR_OFF k))))
      as (l1 & l2 & Hl & -> & _).
    rewrite Hl in Hsub. etrans; [exact Hsub|].
    apply sublist_app; [done|]. by apply sublist_cons.
  - cbn [exec]. cbn in Hen. apply bool_decide_eq_true in Hen.
    destruct (schedule_fields t' k) as (Hsq & _ & Hun & _).
    exists log. split; [by rewrite Hun|]. split; [done|].
    intros Htl. destruct (Hout Htl) as [?|[Hinv Hsub]]; [by left|right].
    split; [by apply kernel_inv_schedule|by rewrite Hsq].
Qed.

Lemma fifo_inv_run t1 t base evs :
  ∀ k k2, fifo_inv t1 t base k → run evs k = Some k2 → fifo_inv t1 t base k2.
Proof.
  induction evs as [|ev evs IH]; intros k k2 Hinv Hrun.
  - cbn in Hrun. by injection Hrun as <-.
  - apply run_cons in Hrun as [Hen Hrun].
    apply (IH (exec ev k)); [|done]. by apply fifo_inv_exec.
Qed.

Lemma kernel_inv_boot : kernel_inv boot_kernel.
Proof.
  split.
  - apply ordered_by_nil.
  - apply NoDup_nil_2.
  - intros t Ht. by apply elem_of_nil in Ht.
Qed.

(** C4: [timer_sleep] puts its caller [t] behind every sleeper whose
    wake_tick is at most its own, so behind every one with the same
    wake_tick, and in front of the later ones; and a sleeper [t1] that was
    in the queue with the same wake_tick when [t] arrived is unblocked
    before [t] in every run of the kernel: equal wake ticks are served in
    the order of the [timer_sleep] calls. *)
Theorem timer_sleep_fifo k start n :
  kernel_inv k →
  status_of k (thread_current k) = THREAD_RUNNING →
  0 < n →
  let t := thread_current k in
  let k' := timer_sleep_block start n k in
  let w := wake_of k' t in
  (∃ l1 l2,
     sleeping_list k = l1 ++ l2
     ∧ sleeping_list k' = l1 ++ t :: l2
     ∧ (∀ x, x ∈ l1 → wake_of k x <= w)
     ∧ (∀ x, x ∈ l2 → w < wake_of k x))
  ∧ (∀ t1, t1 ∈ sleeping_list k → wake_of k t1 = w →
     ∀ evs k2, run evs k' = Some k2 →
       ∃ log, unblocked k2 = unblocked k' ++ log
              ∧ (t ∈ log → precedes t1 t log)).
Proof.
  intros Hinv Hrun Hn t k' w.
  destruct (timer_sleep_block_fields start n k)
    as (Hless & Hsq & Hw & _). fold t k' in Hless, Hsq, Hw.
  assert (Hnot : t ∉ sleeping_list k).
  { intros Hin. apply (inv_blocked k Hinv) in Hin. subst t. congruence. }
  assert (Hsame : ∀ x, x ∈ sleeping_list k → wake_of k' x = wake_of k x).
  { intros x Hx. rewrite Hw. rewrite decide_False; [done|]. by intros <-. }
  destruct (list_insert_ordered_split (sleeping_list k) t
              (wake_up_cmp (set_wake_tick t (wrap64 (start + n))
                              (set_level INTR_OFF k))))
    as (l1 & l2 & Hl & Hins & Hl1 & Hl2).
  rewrite Hins in Hsq.
  assert (Hfront : ∀ x, x ∈ l1 → wake_of k x <= w).
  { intros x Hx. rewrite Forall_forall in Hl1. specialize (Hl1 x Hx).
    rewrite Hless in Hl1. apply Z.ltb_ge in Hl1.
    rewrite <- Hsame; [done|]. rewrite Hl. apply elem_of_app. by left. }
  assert (Hback : ∀ x, x ∈ l2 → w < wake_of k x).
  { intros x Hx. pose proof (inv_ordered k Hinv) as Ho. unfold sq_ordered in Ho.
    rewrite Hl in Ho. apply ordered_by_app_r in Ho.
    destruct l2 as [|y l2]; [by apply elem_of_nil in Hx|].
    rewrite Hless in Hl2. apply Z.ltb_lt in Hl2.
    rewrite (Hsame y) in Hl2
      by (rewrite Hl, elem_of_app; right; apply list_elem_of_here).
    fold w in Hl2. apply ordered_by_cons in Ho as [Hy _].
    rewrite Forall_forall in Hy.
    apply elem_of_cons in Hx as [->|Hx]; [done|]. specialize (Hy x Hx). lia. }
  split; [by exists l1, l2|].
  intros t1 Ht1 Hw1 evs k2 Hrun2.
  assert (Ht1' : t1 ∈ l1).
  { rewrite Hl in Ht1. apply elem_of_app in Ht1 as [?|Hx]; [done|].
    apply Hback in Hx. lia. }
  assert (Hinit : fifo_inv t1 t (unblocked k') k').
  { exists []. split; [by rewrite app_nil_r|]. split.
    - by intros ?%elem_of_nil.
    - intros _. right. split; [by apply kernel_inv_sleep|]. rewrite Hsq.
      destruct (list_elem_of_split l1 t1 Ht1') as (la & lb & ->).
      change [t1; t] with ([t1] ++ [t]). apply sublist_app.
      + apply sublist_inserts_l. apply sublist_skip. apply sublist_nil_l.
      + apply sublist_skip. apply sublist_nil_l. }
  destruct (fifo_inv_run t1 t _ evs k' k2 Hinit Hrun2) as (log & Hlog & Hin & _).
  by exists log.
Qed.

Lemma timer_sleep_fifo_witness :
  ∃ k2,
    run [EvSwitch 2%nat; EvTick; EvTick; EvTick; EvTick; EvTick]
        (timer_sleep_block 0 5 first_sleeper_queued) = Some k2
    ∧ sleeping_list (timer_sleep_block 0 5 first_sleeper_queued)
      = [0%nat; 1%nat]
    ∧ unblocked k2 = [0%nat; 1%nat]
    ∧ precedes 0%nat 1%nat [0%nat; 1%nat].
Proof.
  assert (Hinv : kernel_inv first_sleeper_queued).
  { apply (kernel_inv_run [EvSleep 0 5; EvSwitch 1%nat] boot_kernel);
      [apply kernel_inv_boot|]. vm_compute. reflexivity. }
  assert (Hrun : status_of first_sleeper_queued
                   (thread_current first_sleeper_queued) = THREAD_RUNNING)
    by (vm_compute; reflexivity).
  assert (Hn : 0 < 5) by lia.
  destruct (timer_sleep_fifo first_sleeper_queued 0 5 Hinv Hrun Hn)
    as (_ & Hfifo).
  eexists. split; [vm_compute; reflexivity|].
  split; [vm_compute; reflexivity|]. split; [vm_compute; reflexivity|].
  destruct (Hfifo 0%nat) with
    (evs := [EvSwitch 2%nat; EvTick; EvTick; EvTick; EvTick; EvTick])
    (k2 := exec EvTick (exec EvTick (exec EvTick (exec EvTick (exec EvTick
             (exec (EvSwitch 2%nat)
                (timer_sleep_block 0 5 first_sleeper_queued)))))))
    as (log & Hlog & Hpre).
  - vm_compute. apply list_elem_of_here.
  - vm_compute. reflexivity.
  - vm_compute. reflexivity.
  - assert (Hl : log = [0%nat; 1%nat]).
    { vm_compute in Hlog. by symmetry. }
    rewrite Hl in Hpre. apply Hpre. apply elem_of_cons. right.
    apply list_elem_of_here.
Defined.

(** *** The scenarios of the specification, run on the model *)

(** Ordered wake: at tick 0 thread 0 sleeps 30 ticks, thread 1 sleeps 10 and
    thread 2 sleeps 20; they are unblocked in the order 1, 2, 0, and nobody
    before its tick. *)
Example scenario_ordered_wake :
  unblocked <$>
    run ([EvSleep 0 30; EvSwitch 1%nat; EvSleep 0 10; EvSwitch 2%nat;
          EvSleep 0 20; EvSwitch 3%nat] ++ replicate 30 EvTick) boot_kernel
  = Some [1%nat; 2%nat; 0%nat]
  ∧ unblocked <$>
      run ([EvSleep 0 30; EvSwitch 1%nat; EvSleep 0 10; EvSwitch 2%nat;
            EvSleep 0 20; EvSwitch 3%nat] ++ replicate 19 EvTick) boot_kernel
    = Some [1%nat].
Proof. split; vm_compute; reflexivity. Qed.

(** No-op: [timer_sleep (0)] and [timer_sleep (-7)] leave the queue empty. *)
Example scenario_no_op :
  sleeping_list (timer_sleep 0 (timer_sleep (-7) boot_kernel)) = [].
Proof. reflexivity. Qed.

(** Tick storm, with five threads: all sleep one tick at tick 0, and after
    the handler of tick 1 the queue is empty and all five are ready. *)
Example scenario_tick_storm :
  (λ k, (sleeping_list k, unblocked k, map (status_of k) (seq 0 5))) <$>
    run [EvSleep 0 1; EvSwitch 1%nat; EvSleep 0 1; EvSwitch 2%nat;
         EvSleep 0 1; EvSwitch 3%nat; EvSleep 0 1; EvSwitch 4%nat;
         EvSleep 0 1; EvSwitch 5%nat; EvTick] boot_kernel
  = Some ([], [0; 1; 2; 3; 4]%nat, replicate 5 THREAD_READY).
Proof. vm_compute. reflexivity. Qed.

(** ** Further properties of devices/timer.c *)

(** *** Reading the clock *)

(** X1: [timer_elapsed] applied to a value [timer_ticks] returned earlier
    gives the number of tick interrupts since that read, which is never
    negative, and like [timer_ticks] it leaves the kernel as it found it,
    interrupt level included.  The counter is taken not to overflow. *)
Theorem timer_elapsed_counts_ticks evs k k' :
  0 <= ticks k →
  ticks k + count_ticks evs <= INT64_MAX →
  run evs (snd (timer_ticks k)) = Some k' →
  timer_elapsed (fst (timer_ticks k)) k' = (count_ticks evs, k')
  ∧ 0 <= fst (timer_elapsed (fst (timer_ticks k)) k').
Proof.
  intros Hk Hmax Hrun. pose proof (count_ticks_nonneg evs) as Hpos.
  assert (Hin : in_int64 (ticks k)).
  { unfold in_int64, INT64_MIN. split; lia. }
  rewrite timer_ticks_spec in Hrun. cbn [snd] in Hrun.
  pose proof (run_ticks evs k k' Hin Hmax Hrun) as Heq.
  unfold timer_elapsed. rewrite !timer_ticks_spec. cbn [fst].
  replace (ticks k' - ticks k) with (count_ticks evs) by lia.
  rewrite wrap64_id; [split; [done|by cbn]|].
  unfold in_int64, INT64_MIN. split; lia.
Qed.

Lemma timer_elapsed_counts_ticks_witness :
  ∃ k', run [EvTick; EvSleep 1 5; EvSwitch 1%nat; EvTick; EvTick] boot_kernel
        = Some k'
        ∧ fst (timer_elapsed (fst (timer_ticks boot_kernel)) k') = 3.
Proof.
  eexists. split; [vm_compute; reflexivity|].
  refine (f_equal fst (proj1 (timer_elapsed_counts_ticks
            [EvTick; EvSleep 1 5; EvSwitch 1%nat; EvTick; EvTick]
            boot_kernel _ _ _ _))).
  - vm_compute. discriminate.
  - vm_compute. discriminate.
  - vm_compute. reflexivity.
Defined.

(** *** Measuring a busy-wait against the clock *)

Lemma wrap64_wrap64_add a b : wrap64 (wrap64 a + b) = wrap64 (a + b).
Proof.
  unfold wrap64.
  replace ((a + 2 ^ 63) mod 2 ^ 64 - 2 ^ 63 + b + 2 ^ 63)
    with ((a + 2 ^ 63) mod 2 ^ 64 + b) by lia.
  replace (a + b + 2 ^ 63) with (a + 2 ^ 63 + b) by lia.
  by rewrite Zplus_mod_idemp_l.
Qed.

(** Adding [a >= 0] to a 64-bit value gives the value back exactly when [a]
    is a multiple of [2 ^ 64]. *)
Lemma wrap64_add_same s a :
  in_int64 s → wrap64 (s + a) = s ↔ a mod 2 ^ 64 = 0.
Proof.
  unfold in_int64, INT64_MIN, INT64_MAX, wrap64. intros Hs.
  replace (s + a + 2 ^ 63) with (s + 2 ^ 63 + a) by lia.
  split.
  - intros Heq.
    pose proof (Z.div_mod (s + 2 ^ 63 + a) (2 ^ 64) ltac:(lia)) as Hdm.
    assert (Ha : a = (s + 2 ^ 63 + a) / 2 ^ 64 * 2 ^ 64) by lia.
    rewrite Ha. apply Z.mod_mul. lia.
  - intros Hmod.
    pose proof (Z.div_mod a (2 ^ 64) ltac:(lia)) as Hdm.
    replace (s + 2 ^ 63 + a) with (s + 2 ^ 63 + a / 2 ^ 64 * 2 ^ 64) by lia.
    rewrite Z.mod_add by lia. rewrite Z.mod_small by lia. lia.
Qed.

Lemma ticks_tick_irq k : ticks (tick_irq k) = wrap64 (ticks k + 1).
Proof. exact (ticks_exec EvTick k). Qed.

Lemma ticks_iter_tick_irq n k :
  in_int64 (ticks k) →
  ticks (Nat.iter n tick_irq k) = wrap64 (ticks k + Z.of_nat n).
Proof.
  intros Hin. induction n as [|n IH].
  - cbn. rewrite Z.add_0_r. by rewrite wrap64_id.
  - rewrite Nat.iter_succ, ticks_tick_irq, IH, wrap64_wrap64_add.
    f_equal. lia.
Qed.

Lemma kernel_inv_tick_irq k : kernel_inv k → kernel_inv (tick_irq k).
Proof.
  intros Hinv. apply (kernel_inv_tick_effect k); [|done].
  apply (exec_tick_effect k).
Qed.

Lemma kernel_inv_iter_tick_irq n k :
  kernel_inv k → kernel_inv (Nat.iter n tick_irq k).
Proof.
  intros Hinv. induction n as [|n IH]; [done|].
  rewrite Nat.iter_succ. by apply kernel_inv_tick_irq.
Qed.

Section MeasuringFacts.
Context {HW : Type} `{Hardware HW}.

Lemma too_many_loops_answer loops k (h : HW) :
  fst (too_many_loops loops (k, h))
  = negb (Z.of_nat (fst (spin (busy_wait loops) (await_tick h))) mod 2 ^ 64
          =? 0).
Proof.
  unfold too_many_loops.
  destruct (spin (busy_wait loops) (await_tick h)) as [arrived h2].
  cbn [fst snd].
  assert (Hin : in_int64 (ticks (tick_irq k))).
  { rewrite ticks_tick_irq. apply wrap64_range. }
  rewrite ticks_iter_tick_irq by done.
  f_equal. destruct (Z.of_nat arrived mod 2 ^ 64 =? 0) eqn:Hmod.
  - apply Z.eqb_eq in Hmod. apply Z.eqb_eq. symmetry.
    by apply wrap64_add_same.
  - apply Z.eqb_neq in Hmod. apply Z.eqb_neq. intros Heq. apply Hmod.
    by apply (wrap64_add_same (ticks (tick_irq k))).
Qed.

(** X2: [too_many_loops (loops)] answers true exactly when the number of
    tick interrupts that arrive while the busy-wait runs is not a multiple
    of [2 ^ 64], that is, for every count a machine can see, when at least
    one arrives.  It moves the counter by one (the tick it waits for) plus
    that number, leaves [loops_per_tick] alone and keeps the invariants of
    the sleep queue. *)
Theorem too_many_loops_counts_ticks loops k (h : HW) :
  fst (too_many_loops loops (k, h))
  = negb (Z.of_nat (fst (spin (busy_wait loops) (await_tick h))) mod 2 ^ 64
          =? 0)
  ∧ ticks (fst (snd (too_many_loops loops (k, h))))
    = wrap64 (ticks k + 1
              + Z.of_nat (fst (spin (busy_wait loops) (await_tick h))))
  ∧ loops_per_tick (fst (snd (too_many_loops loops (k, h))))
    = loops_per_tick k
  ∧ (kernel_inv k → kernel_inv (fst (snd (too_many_loops loops (k, h))))).
Proof.
  pose proof (too_many_loops_loops_per_tick loops (k, h)) as Hlpt.
  split; [apply too_many_loops_answer|].
  unfold too_many_loops in *.
  destruct (spin (busy_wait loops) (await_tick h)) as [arrived h2].
  cbn [fst snd] in *.
  assert (Hin : in_int64 (ticks (tick_irq k))).
  { rewrite ticks_tick_irq. apply wrap64_range. }
  rewrite ticks_iter_tick_irq by done.
  split; [|split; [done|]].
  - rewrite ticks_tick_irq, wrap64_wrap64_add. done.
  - intros Hinv. by apply kernel_inv_iter_tick_irq, kernel_inv_tick_irq.
Qed.
End MeasuringFacts.

(** *** What the calibration returns *)

Lemma lor_fresh_bit L p :
  0 <= p → (2 ^ (p + 1) | L) → Z.lor L (2 ^ p) = L + 2 ^ p.
Proof.
  intros Hp [q ->].
  assert (Hland : Z.land (q * 2 ^ (p + 1)) (2 ^ p) = 0).
  { apply Z.bits_inj'. intros i Hi.
    rewrite Z.land_spec, Z.bits_0, Z.pow2_bits_eqb by lia.
    destruct (Z.eqb_spec p i) as [<-|Hne]; [|by rewrite andb_false_r].
    rewrite Z.mul_pow2_bits_low by lia. done. }
  rewrite <- Z.lxor_lor by done. symmetry. by apply Z.add_nocarry_lxor.
Qed.

Section CalibrationResult.
Context {HW : Type} `{Hardware HW}.

(** The second loop starts from a multiple of twice its first bit that lies
    between [2 ^ e] and twice that; so does each round, and the result is a
    multiple of the last bit below [2 ^ (e + 1)]. *)
Lemma refine_independent_range (e : Z) (j : nat) :
  ∀ (i : nat) (m : machine),
    10 <= e → (1 <= i)%nat → (i + j = 10)%nat →
    2 ^ e <= loops_per_tick (fst m) <= 2 ^ (e + 1) - 2 ^ (e - Z.of_nat i + 1) →
    (2 ^ (e - Z.of_nat i + 1) | loops_per_tick (fst m)) →
    let m' := refine_independent (2 ^ e)
                (map (λ i, 2 ^ e / 2 ^ Z.of_nat i) (seq i j)) m in
    2 ^ e <= loops_per_tick (fst m') <= 2 ^ (e + 1) - 2 ^ (e - 9)
    ∧ (2 ^ (e - 9) | loops_per_tick (fst m')).
Proof.
  induction j as [|j IH]; intros i m He Hi Hij Hrange Hdiv; cbn zeta.
  - cbn. assert (i = 10%nat) as -> by lia.
    replace (e - Z.of_nat 10 + 1) with (e - 9) in * by lia. done.
  - cbn [seq map refine_independent].
    pose proof (too_many_loops_loops_per_tick
                  (Z.lor (2 ^ e) (2 ^ e / 2 ^ Z.of_nat i)) m) as Hl.
    destruct (too_many_loops _ m) as [many [k1 h1]]. cbn [fst snd] in Hl.
    assert (Hbit : 2 ^ e / 2 ^ Z.of_nat i = 2 ^ (e - Z.of_nat i)).
    { rewrite <- Z.pow_sub_r by lia. done. }
    assert (Hpow : 2 ^ (e - Z.of_nat i + 1) = 2 * 2 ^ (e - Z.of_nat i)).
    { rewrite Z.pow_add_r by lia. lia. }
    assert (Hpos : 0 < 2 ^ (e - Z.of_nat i)) by (apply Z.pow_pos_nonneg; lia).
    apply IH; [done|lia|lia| |];
      replace (e - Z.of_nat (S i) + 1) with (e - Z.of_nat i) by lia;
      destruct many; cbn [fst loops_per_tick set_loops_per_tick];
      rewrite ?Hl, ?Hbit, ?lor_fresh_bit by (done || lia).
    + lia.
    + lia.
    + etrans; [|exact Hdiv]. exists 2. lia.
    + apply Z.divide_add_r; [|done]. etrans; [|exact Hdiv]. exists 2. lia.
Qed.

(** X3: [timer_calibrate] comes to an end: run with interrupts enabled it
    returns or stops the kernel on its [ASSERT] after at most 22 rounds of
    the first loop and 9 of the second.  When it returns, [loops_per_tick]
    is the coarse power of two [2 ^ e], with [e] from 10 to 31, plus
    refinement bits below it: it lies in [[2 ^ e, 2 ^ (e + 1))], its bits
    below the ninth under the top one are zero, and it fits [unsigned]. *)
Theorem timer_calibrate_result fuel k (h : HW) :
  (22 <= fuel)%nat →
  match timer_calibrate fuel (k, h) with
  | Ret (k', h') =>
      intr_get_level k = INTR_ON
      ∧ ∃ e, 10 <= e <= 31
             ∧ 2 ^ e <= loops_per_tick k' < 2 ^ (e + 1)
             ∧ (2 ^ (e - 9) | loops_per_tick k')
             ∧ 2 ^ 10 <= loops_per_tick k' < 2 ^ 32
  | Panic => True
  | OutOfFuel => False
  end.
Proof.
  intros Hfuel. pose proof (timer_calibrate_total fuel k h Hfuel) as Htot.
  unfold timer_calibrate in *.
  destruct (decide (intr_get_level k = INTR_ON)) as [Hon|]; [|done].
  pose proof (calibrate_coarse_total fuel 10
                (set_loops_per_tick (wrap32 (Z.shiftl 1 10)) k, h)
                ltac:(lia) eq_refl ltac:(lia)) as Hc.
  destruct (calibrate_coarse fuel _) as [[k1 h1]| |]; [|done|done].
  destruct Hc as (e & He & Hk1). cbn [fst] in Hk1.
  destruct (calibrate_refine fuel _ _ _) as [[k' h']| |]; [|done|done].
  destruct Htot as (m1 & [= <-] & Hres). cbn [fst] in Hres.
  split; [done|]. exists e. split; [done|].
  pose proof (refine_independent_range e 9 1 (k1, h1) ltac:(lia) ltac:(lia)
                ltac:(lia)) as Hr.
  cbn zeta in Hr. cbn [fst] in Hr. unfold candidate_bits in Hres.
  rewrite Hk1 in Hres, Hr. rewrite <- Hres in Hr. cbn [fst] in Hr.
  replace (e - Z.of_nat 1 + 1) with e in Hr by lia.
  destruct Hr as [Hrange Hdiv].
  { rewrite Z.pow_add_r by lia. lia. }
  { done. }
  assert (0 < 2 ^ (e - 9)) by (apply Z.pow_pos_nonneg; lia).
  assert (2 ^ 10 <= 2 ^ e) by (apply Z.pow_le_mono_r; lia).
  assert (2 ^ (e + 1) <= 2 ^ 32) by (apply Z.pow_le_mono_r; lia).
  repeat split; try done; lia.
Qed.
End CalibrationResult.

Lemma timer_calibrate_result_witness :
  ∃ k', @timer_calibrate unit sample_hardware 22 (boot_kernel, tt)
        = Ret (k', tt)
        ∧ 2 ^ 10 <= loops_per_tick k' < 2 ^ 32.
Proof.
  assert (Hf : (22 <= 22)%nat) by lia.
  pose proof (@timer_calibrate_result unit sample_hardware 22 boot_kernel tt Hf)
    as Hres.
  eexists. split; [vm_compute; reflexivity|].
  match goal with
  | |- _ <= loops_per_tick ?K < _ =>
      assert (Hrun : @timer_calibrate unit sample_hardware 22 (boot_kernel, tt)
                     = Ret (K, tt)) by (vm_compute; reflexivity)
  end.
  rewrite Hrun in Hres.
  destruct Hres as (_ & e & _ & _ & _ & Hrange). exact Hrange.
Defined.

Section CalibrationFailure.
Context {HW : Type} `{Hardware HW}.

Lemma calibrate_coarse_overflow (fuel : nat) :
  (∀ n (h : HW), fst (spin n h) = 0%nat) →
  ∀ (e : Z) (m : machine),
    10 <= e <= 31 → loops_per_tick (fst m) = 2 ^ e →
    32 - e <= Z.of_nat fuel →
    calibrate_coarse fuel m = Panic.
Proof.
  intros Hsilent. induction fuel as [|fuel IH]; intros e m He Hm Hfuel; [lia|].
  cbn [calibrate_coarse]. destruct m as [k h].
  pose proof (too_many_loops_loops_per_tick
                (wrap32 (Z.shiftl (loops_per_tick k) 1)) (k, h)) as Hl.
  pose proof (too_many_loops_answer
                (wrap32 (Z.shiftl (loops_per_tick k) 1)) k h) as Hans.
  rewrite Hsilent in Hans. cbn [fst] in *.
  destruct (too_many_loops _ (k, h)) as [many [k1 h1]].
  cbn [fst snd] in Hl, Hans.
  assert (many = false) as -> by (rewrite Hans; reflexivity).
  cbn [loops_per_tick set_loops_per_tick].
  rewrite Hl, Hm, Z.shiftl_mul_pow2 by lia.
  replace (2 ^ e * 2 ^ 1) with (2 ^ (e + 1))
    by (rewrite Z.pow_add_r by lia; done).
  unfold wrap32. destruct (decide (e = 31)) as [->|Hne].
  - by change ((2 ^ (31 + 1)) mod 2 ^ 32) with 0.
  - assert (0 < 2 ^ (e + 1) < 2 ^ 32) as Hlt.
    { split; [apply Z.pow_pos_nonneg; lia|]. apply Z.pow_lt_mono_r; lia. }
    rewrite Z.mod_small by lia. rewrite (proj2 (Z.eqb_neq _ 0)) by lia.
    apply (IH (e + 1)); [lia|done|lia].
Qed.

(** X4: [timer_calibrate] stops the kernel on its first [ASSERT] when it is
    called with interrupts off; and on a machine where no busy-wait ever
    lasts into the next tick it doubles [loops_per_tick] from [2 ^ 10] until
    the 32-bit value wraps to zero, where its second [ASSERT] stops the
    kernel: it never returns a zero or wrapped count. *)
Theorem timer_calibrate_panics fuel k (h : HW) :
  (intr_get_level k = INTR_OFF → timer_calibrate fuel (k, h) = Panic)
  ∧ ((∀ n (h0 : HW), fst (spin n h0) = 0%nat) →
     (22 <= fuel)%nat →
     timer_calibrate fuel (k, h) = Panic).
Proof.
  unfold timer_calibrate. split.
  - intros Hoff. rewrite decide_False; [done|]. congruence.
  - intros Hsilent Hfuel.
    destruct (decide (intr_get_level k = INTR_ON)); [|done].
    rewrite (calibrate_coarse_overflow fuel Hsilent 10); [done|lia|done|lia].
Qed.
End CalibrationFailure.

Lemma timer_calibrate_panics_witness :
  @timer_calibrate unit silent_hardware 22 (boot_kernel, tt) = Panic
  ∧ @timer_calibrate unit sample_hardware 22
      (set_level INTR_OFF boot_kernel, tt) = Panic.
Proof.
  assert (Hsilent : ∀ n (h0 : unit),
            fst (@spin unit silent_hardware n h0) = 0%nat) by reflexivity.
  assert (Hf : (22 <= 22)%nat) by lia.
  split.
  - exact (proj2 (@timer_calibrate_panics unit silent_hardware 22 boot_kernel tt)
             Hsilent Hf).
  - apply (proj1 (@timer_calibrate_panics unit sample_hardware 22
                    (set_level INTR_OFF boot_kernel) tt)).
    reflexivity.
Defined.

Section CalibrationThreshold.
Context {HW : Type} `{Hardware HW}.
Variable T : Z.
Hypothesis spin_threshold :
  ∀ n (h : HW), fst (spin n h) = if T <? Z.of_nat n then 1%nat else 0%nat.

Lemma too_many_loops_threshold loops k (h : HW) :
  0 <= loops < 2 ^ 63 →
  fst (too_many_loops loops (k, h)) = (T <? loops).
Proof.
  intros Hloops. rewrite too_many_loops_answer, spin_threshold.
  unfold busy_wait. rewrite busy_wait_from_spec
    by (unfold in_int64, INT64_MIN, INT64_MAX; lia).
  rewrite Nat.add_0_l, Z.max_l, Z2Nat.id by lia.
  by destruct (T <? loops).
Qed.

Lemma calibrate_coarse_threshold (fuel : nat) :
  ∀ (e : Z) (m : machine),
    10 <= e <= 30 → loops_per_tick (fst m) = 2 ^ e →
    2 ^ e <= T < 2 ^ 31 →
    31 - e <= Z.of_nat fuel →
    ∃ e' k' h',
      calibrate_coarse fuel m = Ret (k', h')
      ∧ 10 <= e' <= 30
      ∧ loops_per_tick k' = 2 ^ e'
      ∧ 2 ^ e' <= T < 2 ^ (e' + 1).
Proof.
  induction fuel as [|fuel IH]; intros e m He Hm HT Hfuel; [lia|].
  cbn [calibrate_coarse]. destruct m as [k h]. cbn [fst] in *.
  assert (Hnext : wrap32 (Z.shiftl (2 ^ e) 1) = 2 ^ (e + 1)).
  { rewrite Z.shiftl_mul_pow2, <- Z.pow_add_r by lia. apply Z.mod_small.
    split; [apply Z.pow_nonneg; lia|apply Z.pow_lt_mono_r; lia]. }
  assert (Hlt : 0 < 2 ^ (e + 1) < 2 ^ 63).
  { split; [apply Z.pow_pos_nonneg; lia|apply Z.pow_lt_mono_r; lia]. }
  rewrite Hm, Hnext.
  pose proof (too_many_loops_loops_per_tick (2 ^ (e + 1)) (k, h)) as Hl.
  pose proof (too_many_loops_threshold (2 ^ (e + 1)) k h ltac:(lia)) as Hans.
  destruct (too_many_loops _ (k, h)) as [many [k1 h1]].
  cbn [fst snd] in Hl, Hans. subst many.
  destruct (Z.ltb_spec T (2 ^ (e + 1))) as [Hbelow|Habove].
  - exists e, k1, h1. split; [done|]. split; [lia|]. split; [congruence|lia].
  - cbn [loops_per_tick set_loops_per_tick]. rewrite Hl, Hm, Hnext.
    rewrite (proj2 (Z.eqb_neq _ 0)) by lia.
    assert (e + 1 < 31).
    { apply (Z.pow_lt_mono_r_iff 2); lia. }
    apply (IH (e + 1)); [lia|done|lia|lia].
Qed.

Lemma refine_independent_threshold (e : Z) (j : nat) :
  ∀ (i : nat) (m : machine),
    10 <= e <= 30 → (1 <= i)%nat → (i + j = 10)%nat →
    (2 ^ (e - Z.of_nat i + 1) | loops_per_tick (fst m)) →
    (∀ p, e - Z.of_nat i < p < e →
          Z.testbit (loops_per_tick (fst m)) p = (2 ^ e + 2 ^ p <=? T)) →
    let m' := refine_independent (2 ^ e)
                (map (λ i, 2 ^ e / 2 ^ Z.of_nat i) (seq i j)) m in
    ∀ p, e - 10 < p < e →
         Z.testbit (loops_per_tick (fst m')) p = (2 ^ e + 2 ^ p <=? T).
Proof.
  induction j as [|j IH]; intros i m He Hi Hij Hdiv Hbits; cbn zeta.
  - cbn. assert (i = 10%nat) as -> by lia. exact Hbits.
  - cbn [seq map refine_independent]. destruct m as [k h]. cbn [fst] in *.
    set (p0 := e - Z.of_nat i) in *.
    assert (Hbit : 2 ^ e / 2 ^ Z.of_nat i = 2 ^ p0).
    { rewrite <- Z.pow_sub_r by lia. done. }
    rewrite Hbit.
    assert (Hsum : Z.lor (2 ^ e) (2 ^ p0) = 2 ^ e + 2 ^ p0).
    { apply lor_fresh_bit; [lia|]. exists (2 ^ (e - (p0 + 1))).
      rewrite <- Z.pow_add_r by lia. f_equal. lia. }
    assert (Hlt : 0 <= 2 ^ e + 2 ^ p0 < 2 ^ 63).
    { assert (0 < 2 ^ p0) by (apply Z.pow_pos_nonneg; lia).
      assert (2 ^ p0 < 2 ^ e) by (apply Z.pow_lt_mono_r; lia).
      assert (2 ^ e <= 2 ^ 30) by (apply Z.pow_le_mono_r; lia). lia. }
    rewrite Hsum.
    pose proof (too_many_loops_loops_per_tick (2 ^ e + 2 ^ p0) (k, h)) as Hl.
    pose proof (too_many_loops_threshold (2 ^ e + 2 ^ p0) k h Hlt) as Hans.
    destruct (too_many_loops _ (k, h)) as [many [k1 h1]].
    cbn [fst snd] in Hl, Hans. subst many.
    assert (Hlow : Z.testbit (loops_per_tick k) p0 = false).
    { destruct Hdiv as [q ->]. fold p0. apply Z.mul_pow2_bits_low. lia. }
    apply IH; [done|lia|lia| |];
      replace (e - Z.of_nat (S i) + 1) with p0 by lia;
      replace (e - Z.of_nat (S i)) with (p0 - 1) by lia;
      destruct (Z.ltb_spec T (2 ^ e + 2 ^ p0)) as [Hbelow|Habove];
      cbn [fst loops_per_tick set_loops_per_tick]; rewrite ?Hl.
    + etrans; [|exact Hdiv]. exists 2. fold p0. rewrite Z.pow_add_r by lia. lia.
    + rewrite lor_fresh_bit by (done || lia).
      apply Z.divide_add_r; [|done]. etrans; [|exact Hdiv]. exists 2.
      fold p0. rewrite Z.pow_add_r by lia. lia.
    + intros p Hp. destruct (decide (p = p0)) as [->|Hne].
      * rewrite Hlow. symmetry. apply Z.leb_gt. lia.
      * apply Hbits. lia.
    + intros p Hp. rewrite Z.lor_spec, Z.pow2_bits_eqb by lia.
      destruct (Z.eqb_spec p0 p) as [<-|Hne].
      * rewrite orb_true_r. symmetry. by apply Z.leb_le.
      * rewrite orb_false_r. apply Hbits. lia.
Qed.

(** X5: on a machine whose tick lasts [T] runs of the busy-wait loop, with
    [2 ^ 10 <= T < 2 ^ 31], [timer_calibrate] returns; the coarse power of
    two [2 ^ e] it finds brackets the tick, [2 ^ e <= T < 2 ^ (e + 1)], and
    each of the nine bits below it is set in [loops_per_tick] exactly when
    the coarse value plus that bit alone fits in a tick. *)
Theorem timer_calibrate_threshold fuel k (h : HW) :
  2 ^ 10 <= T < 2 ^ 31 →
  intr_get_level k = INTR_ON →
  (22 <= fuel)%nat →
  ∃ k' h' e,
    timer_calibrate fuel (k, h) = Ret (k', h')
    ∧ 10 <= e <= 30
    ∧ 2 ^ e <= T < 2 ^ (e + 1)
    ∧ 2 ^ e <= loops_per_tick k' < 2 ^ (e + 1)
    ∧ (∀ i, 1 <= i <= 9 →
            Z.testbit (loops_per_tick k') (e - i)
            = (2 ^ e + 2 ^ (e - i) <=? T)).
Proof.
  intros HT Hon Hfuel. unfold timer_calibrate. rewrite decide_True by done.
  destruct (calibrate_coarse_threshold fuel 10
              (set_loops_per_tick (wrap32 (Z.shiftl 1 10)) k, h)
              ltac:(lia) eq_refl ltac:(lia) ltac:(lia))
    as (e & k1 & h1 & -> & He & Hk1 & Hbr).
  rewrite Hk1.
  rewrite (calibrate_refine_from 9 fuel (2 ^ e) 1 (k1, h1));
    [|apply Z.pow_le_mono_r; lia|lia|lia|lia].
  set (m' := refine_independent _ _ _).
  exists (fst m'), (snd m'), e. rewrite <- surjective_pairing.
  split; [done|]. split; [done|]. split; [done|].
  assert (Hd : (2 ^ (e - Z.of_nat 1 + 1) | loops_per_tick (fst (k1, h1)))).
  { cbn [fst]. rewrite Hk1. replace (e - Z.of_nat 1 + 1) with e by lia. done. }
  split.
  - pose proof (refine_independent_range e 9 1 (k1, h1) ltac:(lia)
                  ltac:(lia) ltac:(lia)) as Hr.
    cbn zeta in Hr. fold m' in Hr. destruct Hr as [Hr _]; [|done|].
    + cbn [fst]. rewrite Hk1. replace (e - Z.of_nat 1 + 1) with e by lia.
      rewrite Z.pow_add_r by lia. lia.
    + assert (0 < 2 ^ (e - 9)) by (apply Z.pow_pos_nonneg; lia). lia.
  - intros i Hi.
    apply (refine_independent_threshold e 9 1 (k1, h1)); [done|lia|lia|done| |lia].
    intros p Hp. lia.
Qed.
End CalibrationThreshold.

Lemma timer_calibrate_threshold_witness :
  ∃ k', @timer_calibrate unit sample_hardware 22 (boot_kernel, tt)
        = Ret (k', tt)
        ∧ 2 ^ 10 <= loops_per_tick k' < 2 ^ 11.
Proof.
  assert (Hthr : ∀ n (h : unit),
            fst (@spin unit sample_hardware n h)
            = if 1331 <? Z.of_nat n then 1%nat else 0%nat).
  { intros n h.
    change (fst (@spin unit sample_hardware n h))
      with (if (1331 <? n)%nat then 1%nat else 0%nat).
    destruct (Nat.ltb_spec 1331 n), (Z.ltb_spec 1331 (Z.of_nat n)); done || lia. }
  assert (HT : 2 ^ 10 <= 1331 < 2 ^ 31) by (split; vm_compute; done).
  assert (Hon : intr_get_level boot_kernel = INTR_ON) by reflexivity.
  assert (Hf : (22 <= 22)%nat) by lia.
  destruct (@timer_calibrate_threshold unit sample_hardware 1331 Hthr 22
              boot_kernel tt HT Hon Hf)
    as (k' & [] & e & Hrun & He & Hbr & Hrange & _).
  exists k'. split; [exact Hrun|].
  assert (e = 10) as ->; [|exact Hrange].
  destruct (Z_lt_le_dec e 11) as [?|Hge]; [lia|].
  assert (2 ^ 11 <= 2 ^ e) by (apply Z.pow_le_mono_r; lia).
  change (2 ^ 11) with 2048 in *. lia.
Defined.

(** *** Real-time delays *)

(** X6: the wrappers satisfy the demands of [real_time_sleep] on its
    denominator: [timer_msleep], [timer_usleep] and [timer_nsleep] never
    divide by zero and never fail [ASSERT (denom % 1000 == 0)], whatever
    the argument and [TIMER_FREQ]; they stop the kernel exactly when they
    are called with interrupts off. *)
Theorem sleep_wrappers_panic_iff_intr_off F n k :
  (timer_msleep F n k = Panic ↔ intr_get_level k = INTR_OFF)
  ∧ (timer_usleep F n k = Panic ↔ intr_get_level k = INTR_OFF)
  ∧ (timer_nsleep F n k = Panic ↔ intr_get_level k = INTR_OFF).
Proof.
  unfold timer_msleep, timer_usleep, timer_nsleep, real_time_sleep.
  change (Z.rem 1000 1000 =? 0) with true.
  change (Z.rem (1000 * 1000) 1000 =? 0) with true.
  change (Z.rem (1000 * 1000 * 1000) 1000 =? 0) with true.
  rewrite !decide_False by done. unfold intr_get_level.
  repeat split; destruct (level k); cbn; try done;
    intros Hp; by destruct (0 <? _).
Qed.

Lemma quot_1000_range a : in_int64 a → in_int64 (a ÷ 1000).
Proof.
  unfold in_int64, INT64_MIN, INT64_MAX. intros Ha.
  destruct (Z_le_gt_dec 0 a) as [Hge|Hlt].
  - pose proof (Z.quot_pos a 1000 Hge ltac:(lia)).
    pose proof (Z.quot_le_upper_bound a 1000 (2 ^ 63 - 1) ltac:(lia) ltac:(lia)).
    lia.
  - pose proof (Z.quot_opp_l a 1000 ltac:(lia)) as Ho.
    pose proof (Z.quot_pos (- a) 1000 ltac:(lia) ltac:(lia)).
    pose proof (Z.quot_le_upper_bound (- a) 1000 (2 ^ 63) ltac:(lia) ltac:(lia)).
    lia.
Qed.

(** X7: a delay of at least one tick, [num * TIMER_FREQ >= denom], blocks
    the caller: [real_time_sleep] spins zero times and leaves the caller
    blocked in the sleep queue with a wake tick [whole] ticks ahead of the
    counter, where [whole] is [num * TIMER_FREQ / denom] rounded down, so
    never more than the delay asked for. *)
Theorem real_time_sleep_blocks F num denom k :
  intr_get_level k = INTR_ON →
  0 <= num → 0 < denom →
  in_int64 (num * F) →
  denom <= num * F →
  in_int64 (ticks k + num * F / denom) →
  let whole := num * F / denom in
  ∃ k', real_time_sleep F num denom k = Ret (0%nat, k')
        ∧ status_of k' (thread_current k) = THREAD_BLOCKED
        ∧ thread_current k ∈ sleeping_list k'
        ∧ wake_of k' (thread_current k) = ticks k + whole
        ∧ 0 < whole
        ∧ whole * denom <= num * F < (whole + 1) * denom.
Proof.
  intros Hon Hnum Hdenom Hprod Hge Hwake whole.
  assert (Hq : num * F ÷ denom = whole).
  { apply Z.quot_div_nonneg; lia. }
  assert (Hpos : 0 < whole).
  { apply Z.div_str_pos. lia. }
  assert (Hfloor : whole * denom <= num * F < (whole + 1) * denom).
  { pose proof (Z.div_mod (num * F) denom ltac:(lia)) as Hdm.
    pose proof (Z.mod_pos_bound (num * F) denom ltac:(lia)). fold whole in Hdm.
    lia. }
  assert (Hin : in_int64 whole).
  { unfold in_int64, INT64_MIN, INT64_MAX in *.
    assert (whole <= num * F); [|lia].
    apply Z.div_le_upper_bound; [lia|]. nia. }
  exists (timer_sleep whole k). split.
  - unfold real_time_sleep. rewrite decide_False by lia.
    rewrite decide_True by done.
    rewrite (wrap64_id (num * F)), Hq, (wrap64_id whole) by done.
    by rewrite (proj2 (Z.ltb_lt 0 whole) Hpos).
  - rewrite timer_sleep_positive by done.
    destruct (timer_sleep_block_fields (ticks k) whole k)
      as (_ & Hsq & Hw & Hst & _).
    rewrite Hst, Hw, Hsq, !decide_True by done.
    split; [done|]. split; [apply elem_of_list_insert_ordered; by left|].
    split; [by apply wrap64_id|done].
Qed.

Lemma real_time_sleep_blocks_witness :
  ∃ k', timer_msleep 100 25 calibrated_kernel = Ret (0%nat, k')
        ∧ wake_of k' 0%nat = 2.
Proof.
  assert (Hr : ∀ z, (INT64_MIN <=? z) && (z <=? INT64_MAX) = true → in_int64 z).
  { intros z [H1 H2]%andb_prop. split; by apply Z.leb_le. }
  assert (Hon : intr_get_level calibrated_kernel = INTR_ON) by reflexivity.
  assert (Hn : 0 <= 25) by lia.
  assert (Hd : 0 < 1000) by lia.
  assert (Hp : in_int64 (25 * 100)) by (apply Hr; reflexivity).
  assert (Hg : 1000 <= 25 * 100) by lia.
  assert (Hw : in_int64 (ticks calibrated_kernel + 25 * 100 / 1000))
    by (apply Hr; reflexivity).
  destruct (real_time_sleep_blocks 100 25 1000 calibrated_kernel
              Hon Hn Hd Hp Hg Hw) as (k' & Hrun & _ & _ & Hwake & _).
  exists k'. split; [exact Hrun|exact Hwake].
Defined.

(** X8: a delay of less than a tick, [0 <= num * TIMER_FREQ < denom], never
    blocks and leaves the kernel as it is; the busy-wait runs for fewer
    iterations than one tick holds, [loops_per_tick]. *)
Theorem real_time_sleep_spins_less_than_a_tick F num denom k :
  intr_get_level k = INTR_ON →
  19 <= F <= 1000 →
  0 <= num → 0 < denom < 2 ^ 31 → Z.rem denom 1000 = 0 →
  0 <= loops_per_tick k →
  in_int64 (loops_per_tick k * num) →
  num * F < denom →
  ∃ iterations,
    real_time_sleep F num denom k = Ret (iterations, k)
    ∧ Z.of_nat iterations
      = loops_per_tick k * num / 1000 * F / (denom / 1000)
    ∧ Z.of_nat iterations <= loops_per_tick k
    ∧ (0 < loops_per_tick k → Z.of_nat iterations < loops_per_tick k).
Proof.
  intros Hon HF Hnum Hdenom Hrem Hlpt Hprod Hsub.
  set (L := loops_per_tick k) in *. set (d := denom / 1000).
  assert (Hd : denom = 1000 * d).
  { apply Z.rem_divide in Hrem as [q Hq]; [|lia]. subst denom d.
    rewrite Z.div_mul by lia. lia. }
  assert (Hdpos : 0 < d) by lia.
  set (q := L * num / 1000).
  assert (Hq : 0 <= q ∧ 1000 * q <= L * num).
  { split; [apply Z.div_pos; nia|apply Z.mul_div_le; lia]. }
  set (x := q * F).
  assert (Hx : 0 <= x ∧ 1000 * x <= L * (num * F) ∧ x <= L * num).
  { subst x. nia. }
  set (loops := x / d).
  assert (Hloops : 0 <= loops ∧ loops <= L ∧ (0 < L → loops < L)).
  { subst loops. split; [apply Z.div_pos; lia|]. split.
    - apply Z.div_le_upper_bound; [lia|]. nia.
    - intros HL. apply Z.div_lt_upper_bound; [lia|]. nia. }
  assert (Hin : ∀ z, 0 <= z <= L * num → in_int64 z).
  { unfold in_int64, INT64_MIN, INT64_MAX in *. intros z Hz. lia. }
  assert (Hwhole : num * F ÷ denom = 0).
  { apply Z.quot_small. split; [nia|lia]. }
  assert (Hsub_loops : sub_tick_loops F num denom k = loops).
  { unfold sub_tick_loops. fold L.
    rewrite (wrap64_id (L * num)) by done.
    rewrite (Z.quot_div_nonneg (L * num) 1000) by nia. fold q.
    rewrite (wrap64_id q) by (apply Hin; lia). fold x.
    rewrite (wrap64_id x) by (apply Hin; lia).
    rewrite (Z.quot_div_nonneg denom 1000) by lia. fold d.
    rewrite (Z.quot_div_nonneg x d) by lia. fold loops.
    apply wrap64_id, Hin.
    assert (loops <= x) by (apply Z.div_le_upper_bound; [lia|nia]). lia. }
  assert (Hnf : in_int64 (num * F)).
  { unfold in_int64, INT64_MIN, INT64_MAX. assert (0 <= num * F) by nia. lia. }
  assert (Hlin : in_int64 loops).
  { rewrite <- Hsub_loops. apply wrap64_range. }
  exists (Z.to_nat loops). rewrite Z2Nat.id by lia.
  split; [|split; [reflexivity|split; tauto]].
  unfold real_time_sleep. rewrite decide_False by lia.
  rewrite decide_True by done.
  rewrite (wrap64_id (num * F)) by done.
  rewrite Hwhole. change (0 <? wrap64 0) with false.
  rewrite (proj2 (Z.eqb_eq _ 0) Hrem), Hsub_loops.
  unfold busy_wait. rewrite busy_wait_from_spec by done.
  by rewrite Z.max_l by lia.
Qed.

Lemma real_time_sleep_spins_less_than_a_tick_witness :
  timer_usleep 100 500 calibrated_kernel = Ret (102%nat, calibrated_kernel).
Proof.
  assert (Hr : ∀ z, (INT64_MIN <=? z) && (z <=? INT64_MAX) = true → in_int64 z).
  { intros z [H1 H2]%andb_prop. split; by apply Z.leb_le. }
  assert (Hon : intr_get_level calibrated_kernel = INTR_ON) by reflexivity.
  assert (HF : 19 <= 100 <= 1000) by lia.
  assert (Hn : 0 <= 500) by lia.
  assert (Hd : 0 < 1000 * 1000 < 2 ^ 31) by lia.
  assert (Hm : Z.rem (1000 * 1000) 1000 = 0) by reflexivity.
  assert (Hl : 0 <= loops_per_tick calibrated_kernel) by (vm_compute; discriminate).
  assert (Hp : in_int64 (loops_per_tick calibrated_kernel * 500))
    by (apply Hr; reflexivity).
  assert (Hs : 500 * 100 < 1000 * 1000) by lia.
  destruct (real_time_sleep_spins_less_than_a_tick 100 500 (1000 * 1000)
              calibrated_kernel Hon HF Hn Hd Hm Hl Hp Hs)
    as (its & Hrun & Hits & _).
  unfold timer_usleep. rewrite Hrun. do 2 f_equal.
  apply Nat2Z.inj. rewrite Hits. reflexivity.
Defined.

(** X9: a delay that is zero or negative returns at once: no tick is
    slept, the busy-wait loop body never runs and the kernel is as it
    was. *)
Theorem real_time_sleep_nonpositive F num denom k :
  intr_get_level k = INTR_ON →
  19 <= F <= 1000 →
  num <= 0 → 0 < denom → Z.rem denom 1000 = 0 →
  0 <= loops_per_tick k →
  in_int64 (num * F) →
  in_int64 (loops_per_tick k * num) →
  real_time_sleep F num denom k = Ret (0%nat, k).
Proof.
  intros Hon HF Hnum Hdenom Hrem Hlpt Hprod Hlprod.
  set (L := loops_per_tick k) in *.
  assert (Hd : 0 < denom ÷ 1000).
  { apply Z.rem_divide in Hrem as [q Hq]; [|lia]. subst denom.
    rewrite Z.quot_mul by lia. lia. }
  assert (Hneg : ∀ a b, a <= 0 → 0 < b → a ÷ b <= 0 ∧ a <= a ÷ b).
  { intros a b Ha Hb. pose proof (Z.quot_opp_l a b ltac:(lia)) as Ho.
    pose proof (Z.quot_pos (- a) b ltac:(lia) Hb).
    assert (- a ÷ b <= - a); [|lia].
    apply Z.quot_le_upper_bound; [lia|nia]. }
  assert (Hin : ∀ z, L * num <= z <= 0 → in_int64 z).
  { unfold in_int64, INT64_MIN, INT64_MAX in *. intros z Hz. lia. }
  destruct (Hneg (num * F) denom ltac:(nia) Hdenom) as [Hw1 Hw2].
  assert (Hloops : sub_tick_loops F num denom k <= 0).
  { unfold sub_tick_loops. fold L.
    rewrite (wrap64_id (L * num)) by done.
    destruct (Hneg (L * num) 1000 ltac:(nia) ltac:(lia)) as [Hq1 Hq2].
    rewrite (wrap64_id (L * num ÷ 1000)) by (apply Hin; lia).
    pose proof (Z.mul_quot_ge (L * num) 1000 ltac:(nia) ltac:(lia)) as Hq3.
    assert (Hx : L * num <= L * num ÷ 1000 * F <= 0) by nia.
    rewrite (wrap64_id (L * num ÷ 1000 * F)) by (apply Hin; lia).
    destruct (Hneg (L * num ÷ 1000 * F) (denom ÷ 1000) ltac:(lia) Hd)
      as [Hy1 Hy2].
    rewrite wrap64_id by (apply Hin; lia). done. }
  unfold real_time_sleep. rewrite decide_False by lia.
  rewrite decide_True by done.
  rewrite (wrap64_id (num * F)) by done.
  rewrite wrap64_id
    by (unfold in_int64, INT64_MIN, INT64_MAX in *; lia).
  rewrite (proj2 (Z.ltb_ge 0 _) Hw1), (proj2 (Z.eqb_eq _ 0) Hrem).
  unfold busy_wait. rewrite busy_wait_from_spec by apply wrap64_range.
  by rewrite Z.max_r by done.
Qed.

Lemma real_time_sleep_nonpositive_witness :
  timer_msleep 100 (-40) calibrated_kernel = Ret (0%nat, calibrated_kernel)
  ∧ timer_nsleep 100 0 calibrated_kernel = Ret (0%nat, calibrated_kernel).
Proof.
  assert (Hr : ∀ z, (INT64_MIN <=? z) && (z <=? INT64_MAX) = true → in_int64 z).
  { intros z [H1 H2]%andb_prop. split; by apply Z.leb_le. }
  assert (Hon : intr_get_level calibrated_kernel = INTR_ON) by reflexivity.
  assert (HF : 19 <= 100 <= 1000) by lia.
  assert (Hl : 0 <= loops_per_tick calibrated_kernel) by (vm_compute; discriminate).
  split.
  - apply (real_time_sleep_nonpositive 100 (-40) 1000 calibrated_kernel);
      [done|done|lia|lia|reflexivity|done|apply Hr; reflexivity
      |apply Hr; reflexivity].
  - apply (real_time_sleep_nonpositive 100 0 (1000 * 1000 * 1000)
             calibrated_kernel);
      [done|done|lia|lia|reflexivity|done|apply Hr; reflexivity
      |apply Hr; reflexivity].
Defined.

(** *** The divisor of the interval timer, rounded *)

(** X10: the count [timer_init] programs is the input frequency of the
    8254 divided by [TIMER_FREQ] and rounded to the nearest integer: it
    differs from the exact quotient by at most one half, so the frequency
    the chip produces, [1193180 / count], is off by at most half a count. *)
Theorem pit_count_nearest F :
  19 <= F <= 1000 →
  2 * Z.abs (pit_count F * F - 1193180) <= F.
Proof.
  intros HF. unfold pit_count.
  pose proof (pit_divisor_bounds F HF) as Hb.
  rewrite wrap16_id by lia.
  rewrite (Z.quot_div_nonneg F 2) by lia.
  assert (H0 : 0 <= F / 2) by (apply Z.div_pos; lia).
  rewrite Z.quot_div_nonneg by lia.
  pose proof (Z.div_mod F 2 ltac:(lia)) as Hh.
  pose proof (Z.mod_pos_bound F 2 ltac:(lia)).
  pose proof (Z.div_mod (1193180 + F / 2) F ltac:(lia)) as Hdm.
  pose proof (Z.mod_pos_bound (1193180 + F / 2) F ltac:(lia)).
  set (c := (1193180 + F / 2) / F) in *. nia.
Qed.

Lemma pit_count_nearest_witness :
  2 * Z.abs (pit_count 100 * 100 - 1193180) <= 100.
Proof.
  assert (HF : 19 <= 100 <= 1000) by lia.
  exact (pit_count_nearest 100 HF).
Defined.

(** *** Who is in the sleep queue *)

(** X11: from [timer_init] on, and from any state in which it holds, every
    run of the kernel keeps the membership invariants of the sleep queue: no
    thread is in it twice, every member is blocked, and so the running
    thread is never a member. *)
Theorem sleep_queue_members_blocked_once :
  (∀ k evs k', kernel_inv k → run evs k = Some k' →
     NoDup (sleeping_list k')
     ∧ (∀ t, t ∈ sleeping_list k' → status_of k' t = THREAD_BLOCKED)
     ∧ (status_of k' (thread_current k') = THREAD_RUNNING →
        thread_current k' ∉ sleeping_list k'))
  ∧ (∀ F k0 evs k', run evs (timer_init F k0) = Some k' →
     NoDup (sleeping_list k')
     ∧ (∀ t, t ∈ sleeping_list k' → status_of k' t = THREAD_BLOCKED)
     ∧ (status_of k' (thread_current k') = THREAD_RUNNING →
        thread_current k' ∉ sleeping_list k')).
Proof.
  assert (Hgen : ∀ k evs k', kernel_inv k → run evs k = Some k' →
     NoDup (sleeping_list k')
     ∧ (∀ t, t ∈ sleeping_list k' → status_of k' t = THREAD_BLOCKED)
     ∧ (status_of k' (thread_current k') = THREAD_RUNNING →
        thread_current k' ∉ sleeping_list k')).
  { intros k evs k' Hinv Hrun.
    destruct (kernel_inv_run evs k k' Hinv Hrun) as [_ Hnd Hbl].
    split; [done|]. split; [done|]. intros Hr Hin. apply Hbl in Hin.
    congruence. }
  split; [exact Hgen|]. intros F k0 evs k' Hrun.
  apply (Hgen (timer_init F k0) evs); [apply kernel_inv_timer_init|done].
Qed.

Lemma sleep_queue_members_blocked_once_witness :
  ∃ k', run [EvSleep 0 3; EvSwitch 1%nat; EvSleep 0 3; EvSwitch 2%nat; EvTick]
          (timer_init 100 boot_kernel) = Some k'
        ∧ sleeping_list k' = [0%nat; 1%nat]
        ∧ NoDup (sleeping_list k').
Proof.
  eexists. split; [vm_compute; reflexivity|]. split; [vm_compute; reflexivity|].
  refine (proj1 (proj2 sleep_queue_members_blocked_once 100 boot_kernel
                   [EvSleep 0 3; EvSwitch 1%nat; EvSleep 0 3; EvSwitch 2%nat;
                    EvTick] _ _)).
  vm_compute. reflexivity.
Defined.

Lemma list_insert_ordered_perm l t less :
  list_insert_ordered l t less ≡ₚ t :: l.
Proof.
  destruct (list_insert_ordered_split l t less) as (l1 & l2 & -> & -> & _).
  by rewrite Permutation_middle.
Qed.

(** X12: no wake-up is lost and none is made up.  Over any run, the threads
    still in the sleep queue together with the threads the handler has
    unblocked meanwhile are, as a multiset, the threads that were in the
    queue at the start together with the callers of [timer_sleep (n)],
    [n > 0], during the run. *)
Theorem sleepers_are_conserved evs k k' :
  run evs k = Some k' →
  ∃ log,
    unblocked k' = unblocked k ++ log
    ∧ sleeping_list k' ++ log ≡ₚ sleeping_list k ++ sleepers evs k.
Proof.
  revert k. induction evs as [|ev evs IH]; intros k Hrun.
  - cbn in Hrun. injection Hrun as <-. exists []. by rewrite !app_nil_r.
  - apply run_cons in Hrun as [Hen Hrun].
    destruct (IH _ Hrun) as (log & Hlog & Hperm).
    cbn [sleepers]. destruct ev as [|start n|t].
    + destruct (exec_tick_effect k) as ((_ & Hsq & Hun & _) & _).
      set (now := wrap64 (ticks k + 1)) in *.
      exists (due_sleepers k now (sleeping_list k) ++ log).
      split; [by rewrite Hlog, Hun, <- app_assoc|].
      rewrite <- (due_later_app k now (sleeping_list k)) at 2.
      rewrite Hsq in Hperm. cbn [app].
      rewrite (app_assoc (sleeping_list k')), (Permutation_app_comm
                 (sleeping_list k')), <- !app_assoc.
      by rewrite Hperm.
    + cbn [exec] in *. destruct (n <=? 0); [by exists log|].
      destruct (timer_sleep_block_fields start n k)
        as (_ & Hsq & _ & _ & _ & Hun & _).
      exists log. split; [by rewrite Hlog, Hun|].
      rewrite Hperm, Hsq, list_insert_ordered_perm. cbn [app].
      apply Permutation_middle.
    + cbn [exec] in *.
      destruct (schedule_fields t k) as (Hsq & _ & Hun & _).
      exists log. split; [by rewrite Hlog, Hun|]. by rewrite Hperm, Hsq.
Qed.

Lemma sleepers_are_conserved_witness :
  ∃ k' log,
    run [EvSleep 0 1; EvSwitch 1%nat; EvSleep 0 3; EvSwitch 2%nat; EvTick]
      boot_kernel = Some k'
    ∧ unblocked k' = unblocked boot_kernel ++ log
    ∧ sleeping_list k' ++ log ≡ₚ [0%nat; 1%nat].
Proof.
  pose (K := exec EvTick (exec (EvSwitch 2%nat) (exec (EvSleep 0 3)
               (exec (EvSwitch 1%nat) (exec (EvSleep 0 1) boot_kernel))))).
  assert (Hrun : run [EvSleep 0 1; EvSwitch 1%nat; EvSleep 0 3;
                      EvSwitch 2%nat; EvTick] boot_kernel = Some K)
    by (vm_compute; reflexivity).
  destruct (sleepers_are_conserved _ boot_kernel K Hrun)
    as (log & Hlog & Hperm).
  exists K, log. split; [exact Hrun|]. split; [exact Hlog|].
  vm_compute in Hperm. vm_compute. exact Hperm.
Defined.

(** *** Waking on time and in order *)

Lemma due_sleepers_complete k now l t :
  ordered_by (wake_of k) l → t ∈ l → wake_of k t <= now →
  t ∈ due_sleepers k now l.
Proof.
  intros Ho Hin Hle. rewrite <- (due_later_app k now l) in Hin.
  apply elem_of_app in Hin as [?|Hl]; [done|].
  apply (later_sleepers_later k now l Ho) in Hl. lia.
Qed.

Lemma unblocked_grows evs k k' :
  run evs k = Some k' → ∃ log, unblocked k' = unblocked k ++ log.
Proof.
  revert k. induction evs as [|ev evs IH]; intros k Hrun.
  - cbn in Hrun. injection Hrun as <-. exists []. by rewrite app_nil_r.
  - apply run_cons in Hrun as [_ Hrun]. destruct (IH _ Hrun) as (log & Hlog).
    destruct ev as [|start n|t].
    + destruct (exec_tick_effect k) as ((_ & _ & Hun & _) & _).
      eexists. by rewrite Hlog, Hun, <- app_assoc.
    + cbn [exec] in Hlog. destruct (n <=? 0); [by exists log|].
      destruct (timer_sleep_block_fields start n k)
        as (_ & _ & _ & _ & _ & Hun & _).
      exists log. by rewrite Hlog, Hun.
    + cbn [exec] in Hlog. destruct (schedule_fields t k) as (_ & _ & Hun & _).
      exists log. by rewrite Hlog, Hun.
Qed.

(** A sleeper with wake tick [w] ahead of the counter is unblocked by the
    handler that brings the counter to [w], and by no earlier one. *)
Lemma sleeper_woken_iff (w : Z) (T : tid) evs :
  ∀ k k2,
    kernel_inv k → T ∈ sleeping_list k → wake_of k T = w →
    ticks k < w →
    in_int64 (ticks k) → ticks k + count_ticks evs <= INT64_MAX →
    run evs k = Some k2 →
    ∃ log, unblocked k2 = unblocked k ++ log ∧ (T ∈ log ↔ w <= ticks k2).
Proof.
  induction evs as [|ev evs IH]; intros k k2 Hinv HT Hw Hlt Hin Hmax Hrun.
  - cbn in Hrun. injection Hrun as <-. exists []. rewrite app_nil_r.
    split; [done|]. split; [by intros ?%elem_of_nil|lia].
  - apply run_cons in Hrun as [Hen Hrun]. cbn [count_ticks] in Hmax.
    pose proof (count_ticks_nonneg evs) as Hpos.
    pose proof (kernel_inv_exec ev k Hinv Hen) as Hinv'.
    destruct ev as [|start n|t].
    + destruct (exec_tick_effect k)
        as ((Ht & Hsq & Hun & _ & _ & _ & _ & Hw' & _) & _).
      cbn [is_tick] in Hmax.
      assert (Hnow : wrap64 (ticks k + 1) = ticks k + 1).
      { apply wrap64_id. unfold in_int64 in *. lia. }
      rewrite Hnow in *.
      assert (Hin' : in_int64 (ticks (exec EvTick k))).
      { rewrite Ht. unfold in_int64 in *. lia. }
      destruct (decide (ticks k + 1 < w)) as [Hearly|Hdue].
      * assert (Hnot : T ∉ due_sleepers k (ticks k + 1) (sleeping_list k)).
        { intros Hd. apply due_sleepers_due in Hd. lia. }
        destruct (IH (exec EvTick k) k2) as (log & Hlog & Hiff);
          [done| |by rewrite Hw'|by rewrite Ht|done|rewrite Ht; lia|done|].
        { rewrite Hsq.
          rewrite <- (due_later_app k (ticks k + 1) (sleeping_list k)) in HT.
          by apply elem_of_app in HT as [?|?]. }
        eexists. split; [by rewrite Hlog, Hun, <- app_assoc|].
        rewrite elem_of_app. tauto.
      * destruct (unblocked_grows evs _ k2 Hrun) as (log & Hlog).
        pose proof (run_ticks evs _ k2 Hin' ltac:(rewrite Ht; lia) Hrun) as Hk2.
        eexists. split; [by rewrite Hlog, Hun, <- app_assoc|].
        split; [intros _; rewrite Hk2, Ht; lia|]. intros _.
        apply elem_of_app. left.
        apply due_sleepers_complete; [apply Hinv|done|lia].
    + cbn [exec] in *. cbn [is_tick] in Hmax. destruct (n <=? 0).
      { apply (IH k k2); done || lia. }
      pose proof (enabled_sleep_running _ _ _ Hen) as Hrun'.
      destruct (timer_sleep_block_fields start n k)
        as (_ & Hsq & Hw' & _ & Ht & Hun & _).
      assert (Hne : thread_current k ≠ T).
      { intros Heq. apply (inv_blocked k Hinv) in HT. rewrite Heq in Hrun'.
        congruence. }
      destruct (IH (timer_sleep_block start n k) k2) as (log & Hlog & Hiff);
        [done| | |by rewrite Ht|by rewrite Ht|rewrite Ht; lia|done|].
      { rewrite Hsq. apply elem_of_list_insert_ordered. by right. }
      { rewrite Hw'. by rewrite decide_False. }
      exists log. by rewrite Hlog, Hun.
    + cbn [exec] in *. cbn [is_tick] in Hmax.
      destruct (schedule_fields t k) as (Hsq & Ht & Hun & Hw' & _).
      destruct (IH (schedule t k) k2) as (log & Hlog & Hiff);
        [done|by rewrite Hsq|by rewrite Hw'|by rewrite Ht|by rewrite Ht
        |rewrite Ht; lia|done|].
      exists log. by rewrite Hlog, Hun.
Qed.

Lemma sublist_pair_lookup (l : list tid) i j a b :
  (i < j)%nat → l !! i = Some a → l !! j = Some b → [a; b] `sublist_of` l.
Proof.
  intros Hij Ha Hb.
  rewrite <- (take_drop_middle l i a Ha).
  apply sublist_inserts_l, sublist_skip.
  assert (Hin : b ∈ drop (S i) l).
  { apply list_elem_of_lookup. exists (j - S i)%nat.
    rewrite lookup_drop. by replace (S i + (j - S i))%nat with j by lia. }
  destruct (list_elem_of_split _ _ Hin) as (l1 & l2 & ->).
  apply sublist_inserts_l, sublist_skip, sublist_nil_l.
Qed.

(** X14: sleepers with distinct wake ticks are unblocked in ascending
    order of wake tick: of two threads in the sleep queue, the one with the
    smaller wake tick is unblocked before the other in every run of the
    kernel. *)
Theorem sleepers_wake_in_ascending_order k t1 t2 evs k2 :
  kernel_inv k →
  t1 ∈ sleeping_list k → t2 ∈ sleeping_list k →
  wake_of k t1 < wake_of k t2 →
  run evs k = Some k2 →
  ∃ log, unblocked k2 = unblocked k ++ log
         ∧ (t2 ∈ log → precedes t1 t2 log).
Proof.
  intros Hinv [i Hi]%list_elem_of_lookup [j Hj]%list_elem_of_lookup Hlt Hrun.
  assert (Hij : (i < j)%nat).
  { destruct (Nat.lt_trichotomy i j) as [?|[->|Hji]]; [done| |].
    - rewrite Hi in Hj. injection Hj as ->. lia.
    - pose proof (inv_ordered k Hinv j i t2 t1 Hji Hj Hi). lia. }
  assert (Hinit : fifo_inv t1 t2 (unblocked k) k).
  { exists []. split; [by rewrite app_nil_r|]. split.
    - by intros ?%elem_of_nil.
    - intros _. right. split; [done|]. by apply (sublist_pair_lookup _ i j). }
  destruct (fifo_inv_run t1 t2 _ evs k k2 Hinit Hrun) as (log & Hlog & Hin & _).
  by exists log.
Qed.

Lemma sleepers_wake_in_ascending_order_witness :
  ∃ k k2 log,
    run [EvSleep 0 30; EvSwitch 1%nat; EvSleep 0 10; EvSwitch 2%nat]
      boot_kernel = Some k
    ∧ run (replicate 30 EvTick) k = Some k2
    ∧ unblocked k2 = unblocked k ++ log
    ∧ precedes 1%nat 0%nat log.
Proof.
  pose (K := exec (EvSwitch 2%nat) (exec (EvSleep 0 10) (exec (EvSwitch 1%nat)
               (exec (EvSleep 0 30) boot_kernel)))).
  assert (Hk : run [EvSleep 0 30; EvSwitch 1%nat; EvSleep 0 10; EvSwitch 2%nat]
                 boot_kernel = Some K) by (vm_compute; reflexivity).
  pose (K2 := Nat.iter 30 (exec EvTick) K).
  assert (Hk2 : run (replicate 30 EvTick) K = Some K2)
    by (vm_compute; reflexivity).
  assert (Hinv : kernel_inv K).
  { exact (kernel_inv_run _ boot_kernel K kernel_inv_boot Hk). }
  destruct (sleepers_wake_in_ascending_order K 1%nat 0%nat
              (replicate 30 EvTick) K2 Hinv) as (log & Hlog & Hpre).
  - vm_compute. apply list_elem_of_here.
  - vm_compute. apply elem_of_cons. right. apply list_elem_of_here.
  - vm_compute. reflexivity.
  - exact Hk2.
  - exists K, K2, log. split; [exact Hk|]. split; [exact Hk2|].
    split; [exact Hlog|]. apply Hpre.
    assert (Hl : log = [1%nat; 0%nat]).
    { vm_compute in Hlog. by symmetry. }
    rewrite Hl. apply elem_of_cons. right. apply list_elem_of_here.
Defined.

Lemma sleeper_woken_by_next_tick (w : Z) (T : tid) evs :
  ∀ k k2,
    kernel_inv k → T ∈ sleeping_list k → wake_of k T = w →
    in_int64 (ticks k) → ticks k + count_ticks evs <= INT64_MAX →
    run evs k = Some k2 →
    1 <= count_ticks evs → w <= ticks k2 →
    ∃ log, unblocked k2 = unblocked k ++ log ∧ T ∈ log.
Proof.
  induction evs as [|ev evs IH];
    intros k k2 Hinv HT Hw Hin Hmax Hrun Hone Hreached.
  - cbn in Hone. lia.
  - apply run_cons in Hrun as [Hen Hrun]. cbn [count_ticks] in Hmax, Hone.
    pose proof (count_ticks_nonneg evs) as Hpos.
    pose proof (kernel_inv_exec ev k Hinv Hen) as Hinv'.
    destruct ev as [|start n|t]; cbn [is_tick] in Hmax, Hone.
    + destruct (exec_tick_effect k)
        as ((Ht & Hsq & Hun & _ & _ & _ & _ & Hw' & _) & _).
      assert (Hnow : wrap64 (ticks k + 1) = ticks k + 1).
      { apply wrap64_id. unfold in_int64 in *. lia. }
      rewrite Hnow in *.
      assert (Hin' : in_int64 (ticks (exec EvTick k))).
      { rewrite Ht. unfold in_int64 in *. lia. }
      pose proof (run_ticks evs _ k2 Hin' ltac:(rewrite Ht; lia) Hrun) as Hk2.
      destruct (decide (T ∈ due_sleepers k (ticks k + 1) (sleeping_list k)))
        as [Hdue|Hnot].
      * destruct (unblocked_grows evs _ k2 Hrun) as (log & Hlog).
        eexists. split; [by rewrite Hlog, Hun, <- app_assoc|].
        apply elem_of_app. by left.
      * assert (Hlate : ticks k + 1 < w).
        { destruct (Z_lt_le_dec (ticks k + 1) w) as [?|Hle]; [done|].
          exfalso. apply Hnot.
          apply due_sleepers_complete; [apply Hinv|done|lia]. }
        destruct (IH (exec EvTick k) k2) as (log & Hlog & Hlogin);
          [done| |by rewrite Hw'|done|rewrite Ht; lia|done
          |rewrite Ht in Hk2; lia|done|].
        { rewrite Hsq.
          rewrite <- (due_later_app k (ticks k + 1) (sleeping_list k)) in HT.
          by apply elem_of_app in HT as [?|?]. }
        eexists. split; [by rewrite Hlog, Hun, <- app_assoc|].
        apply elem_of_app. by right.
    + cbn [exec] in *. destruct (n <=? 0).
      { apply (IH k k2); done || lia. }
      pose proof (enabled_sleep_running _ _ _ Hen) as Hrun'.
      destruct (timer_sleep_block_fields start n k)
        as (_ & Hsq & Hw' & _ & Ht & Hun & _).
      assert (Hne : thread_current k ≠ T).
      { intros Heq. apply (inv_blocked k Hinv) in HT. rewrite Heq in Hrun'.
        congruence. }
      destruct (IH (timer_sleep_block start n k) k2) as (log & Hlog & Hlogin);
        [done| | |by rewrite Ht|rewrite Ht; lia|done|lia|done|].
      { rewrite Hsq. apply elem_of_list_insert_ordered. by right. }
      { rewrite Hw'. by rewrite decide_False. }
      exists log. by rewrite Hlog, Hun.
    + cbn [exec] in *.
      destruct (schedule_fields t k) as (Hsq & Ht & Hun & Hw' & _).
      destruct (IH (schedule t k) k2) as (log & Hlog & Hlogin);
        [done|by rewrite Hsq|by rewrite Hw'|by rewrite Ht|rewrite Ht; lia
        |done|lia|done|].
      exists log. by rewrite Hlog, Hun.
Qed.

(** A run without a tick interrupt unblocks nobody: [thread_unblock] is
    called from the handler only. *)
Lemma no_tick_no_unblock evs k k' :
  run evs k = Some k' → count_ticks evs = 0 → unblocked k' = unblocked k.
Proof.
  revert k. induction evs as [|ev evs IH]; intros k Hrun Hcount.
  - cbn in Hrun. by injection Hrun as <-.
  - apply run_cons in Hrun as [_ Hrun]. cbn [count_ticks] in Hcount.
    pose proof (count_ticks_nonneg evs) as Hpos.
    destruct ev as [|start n|t]; cbn [is_tick] in Hcount; [lia| |].
    + rewrite (IH _ Hrun) by lia. cbn [exec]. destruct (n <=? 0); [done|].
      by destruct (timer_sleep_block_fields start n k)
        as (_ & _ & _ & _ & _ & Hun & _).
    + rewrite (IH _ Hrun) by lia. cbn [exec].
      by destruct (schedule_fields t k) as (_ & _ & Hun & _).
Qed.

(** X13: when a thread is unblocked after [timer_sleep (n)], [n > 0].
    [start] is the counter [timer_sleep] read on entry; ticks may have come
    between that read and the masking of interrupts, so the counter at the
    block may be ahead of it.  In every run of the kernel after the block,
    the handler has unblocked the caller if and only if at least one tick
    handler has run since the block and the counter has reached
    [start + n].  When no tick came in between, [start] being the counter at
    the block, that is: if and only if the counter has reached [start + n];
    the handler of that very tick wakes the caller.  The counter and
    [start + n] are taken not to overflow. *)
Theorem timer_sleep_wakes_on_time start n k evs k2 :
  kernel_inv k →
  enabled (EvSleep start n) k = true →
  0 < n →
  in_int64 (ticks k) →
  in_int64 (start + n) →
  ticks k + count_ticks evs <= INT64_MAX →
  run evs (timer_sleep_block start n k) = Some k2 →
  ∃ log,
    unblocked k2 = unblocked (timer_sleep_block start n k) ++ log
    ∧ (thread_current k ∈ log
       ↔ 1 <= count_ticks evs ∧ start + n <= fst (timer_ticks k2))
    ∧ (start = ticks k →
       (thread_current k ∈ log ↔ start + n <= fst (timer_ticks k2))).
Proof.
  intros Hinv Hen Hn Hin Hsum Hmax Hrun.
  pose proof (enabled_sleep_running _ _ _ Hen) as Hrunning.
  pose proof (count_ticks_nonneg evs) as Hpos.
  rewrite timer_ticks_spec. cbn [fst].
  destruct (timer_sleep_block_fields start n k)
    as (_ & Hsq & Hw & _ & Ht & _).
  assert (Hinvb : kernel_inv (timer_sleep_block start n k))
    by by apply kernel_inv_sleep.
  assert (Hmem : thread_current k ∈ sleeping_list (timer_sleep_block start n k)).
  { rewrite Hsq. apply elem_of_list_insert_ordered. by left. }
  assert (Hwake : wake_of (timer_sleep_block start n k) (thread_current k)
                  = start + n).
  { rewrite Hw, decide_True by done. by apply wrap64_id. }
  assert (Hk2 : ticks k2 = ticks k + count_ticks evs).
  { rewrite <- Ht. apply run_ticks; [by rewrite Ht|by rewrite Ht|done]. }
  destruct (unblocked_grows evs _ k2 Hrun) as (log & Hlog).
  assert (Hiff : thread_current k ∈ log
                 ↔ 1 <= count_ticks evs ∧ start + n <= ticks k2).
  { destruct (Z_lt_le_dec (ticks k) (start + n)) as [Hahead|Hpast].
    - destruct (sleeper_woken_iff (start + n) (thread_current k) evs
                  (timer_sleep_block start n k) k2)
        as (log' & Hlog' & Hiff');
        [done|done|done|by rewrite Ht|by rewrite Ht|by rewrite Ht|done|].
      assert (log' = log) as ->.
      { apply (app_inv_head (unblocked (timer_sleep_block start n k))).
        congruence. }
      rewrite Hiff'. lia.
    - split.
      + intros Hwoken. split; [|lia].
        destruct (Z_lt_le_dec (count_ticks evs) 1) as [Hnone|?]; [|done].
        exfalso.
        pose proof (no_tick_no_unblock evs _ k2 Hrun ltac:(lia)) as Hsame.
        assert (log = []) as ->.
        { apply (app_inv_head (unblocked (timer_sleep_block start n k))).
          rewrite app_nil_r. congruence. }
        by apply elem_of_nil in Hwoken.
      + intros [Hone Hreached].
        destruct (sleeper_woken_by_next_tick (start + n) (thread_current k)
                    evs (timer_sleep_block start n k) k2)
          as (log' & Hlog' & Hin');
          [done|done|done|by rewrite Ht|by rewrite Ht|done|done|done|].
        assert (log' = log) as ->; [|done].
        apply (app_inv_head (unblocked (timer_sleep_block start n k))).
        congruence. }
  exists log. split; [done|]. split; [done|].
  intros ->. rewrite Hiff. lia.
Qed.

Lemma timer_sleep_wakes_on_time_witness :
  ∃ k k1 k2 k3 log1 log2 log3,
    run [EvTick; EvTick; EvTick] boot_kernel = Some k
    ∧ (run [EvSwitch 1%nat] (timer_sleep_block 1 2 k) = Some k1
       ∧ unblocked k1 = unblocked (timer_sleep_block 1 2 k) ++ log1
       ∧ 1 + 2 <= ticks k1
       ∧ (0%nat ∉ log1))
    ∧ (run [EvSwitch 1%nat; EvTick] (timer_sleep_block 1 2 k) = Some k2
       ∧ unblocked k2 = unblocked (timer_sleep_block 1 2 k) ++ log2
       ∧ 0%nat ∈ log2)
    ∧ (run [EvSwitch 1%nat; EvTick; EvTick] (timer_sleep_block 3 2 k) = Some k3
       ∧ unblocked k3 = unblocked (timer_sleep_block 3 2 k) ++ log3
       ∧ ticks k3 = 3 + 2
       ∧ 0%nat ∈ log3).
Proof.
  pose (K := Nat.iter 3 (exec EvTick) boot_kernel).
  assert (Hk : run [EvTick; EvTick; EvTick] boot_kernel = Some K)
    by (vm_compute; reflexivity).
  assert (Hinv : kernel_inv K).
  { exact (kernel_inv_run _ boot_kernel K kernel_inv_boot Hk). }
  assert (Hen : ∀ start n, enabled (EvSleep start n) K = true)
    by (intros; vm_compute; reflexivity).
  assert (Hin : in_int64 (ticks K)) by (vm_compute; split; discriminate).
  assert (Hn : 0 < 2) by lia.
  assert (Hs1 : in_int64 (1 + 2)) by (vm_compute; split; discriminate).
  assert (Hs3 : in_int64 (3 + 2)) by (vm_compute; split; discriminate).
  pose (K1 := exec (EvSwitch 1%nat) (timer_sleep_block 1 2 K)).
  assert (Hk1 : run [EvSwitch 1%nat] (timer_sleep_block 1 2 K) = Some K1)
    by (vm_compute; reflexivity).
  pose (K2 := exec EvTick K1).
  assert (Hk2 : run [EvSwitch 1%nat; EvTick] (timer_sleep_block 1 2 K)
                = Some K2) by (vm_compute; reflexivity).
  pose (K3 := exec EvTick (exec EvTick (exec (EvSwitch 1%nat)
                 (timer_sleep_block 3 2 K)))).
  assert (Hk3 : run [EvSwitch 1%nat; EvTick; EvTick] (timer_sleep_block 3 2 K)
                = Some K3) by (vm_compute; reflexivity).
  destruct (timer_sleep_wakes_on_time 1 2 K [EvSwitch 1%nat] K1
              Hinv (Hen 1 2) Hn Hin Hs1 ltac:(vm_compute; discriminate) Hk1)
    as (log1 & Hlog1 & Hiff1 & _).
  destruct (timer_sleep_wakes_on_time 1 2 K [EvSwitch 1%nat; EvTick] K2
              Hinv (Hen 1 2) Hn Hin Hs1 ltac:(vm_compute; discriminate) Hk2)
    as (log2 & Hlog2 & Hiff2 & _).
  destruct (timer_sleep_wakes_on_time 3 2 K [EvSwitch 1%nat; EvTick; EvTick] K3
              Hinv (Hen 3 2) Hn Hin Hs3 ltac:(vm_compute; discriminate) Hk3)
    as (log3 & Hlog3 & _ & Hiff3).
  exists K, K1, K2, K3, log1, log2, log3.
  split; [exact Hk|]. split; [|split].
  - split; [exact Hk1|]. split; [exact Hlog1|].
    split; [vm_compute; discriminate|].
    intros Hwoken. apply Hiff1 in Hwoken as [Hone _].
    vm_compute in Hone. by apply Hone.
  - split; [exact Hk2|]. split; [exact Hlog2|].
    apply Hiff2. split; vm_compute; discriminate.
  - split; [exact Hk3|]. split; [exact Hlog3|].
    split; [vm_compute; reflexivity|].
    apply Hiff3; [vm_compute; reflexivity|vm_compute; discriminate].
Defined.

(** X15: a sleeper is never left in the queue past its time.  Whatever
    value of the counter [timer_sleep] read before it masked interrupts,
    also one so old that the wake tick is already past, once a tick handler
    has run and the counter is at or beyond the wake tick written into the
    thread, the handler has unblocked the caller: it oversleeps by less
    than one tick. *)
Theorem timer_sleep_never_oversleeps start n k evs k2 :
  kernel_inv k →
  enabled (EvSleep start n) k = true →
  0 < n →
  in_int64 (ticks k) →
  ticks k + count_ticks evs <= INT64_MAX →
  run evs (timer_sleep_block start n k) = Some k2 →
  1 <= count_ticks evs →
  wake_of (timer_sleep_block start n k) (thread_current k)
    <= fst (timer_ticks k2) →
  ∃ log, unblocked k2 = unblocked (timer_sleep_block start n k) ++ log
         ∧ thread_current k ∈ log.
Proof.
  intros Hinv Hen Hn Hin Hmax Hrun Hone Hreached.
  pose proof (enabled_sleep_running _ _ _ Hen) as Hrunning.
  rewrite timer_ticks_spec in Hreached. cbn [fst] in Hreached.
  destruct (timer_sleep_block_fields start n k) as (_ & Hsq & _ & _ & Ht & _).
  apply (sleeper_woken_by_next_tick
           (wake_of (timer_sleep_block start n k) (thread_current k))
           (thread_current k) evs (timer_sleep_block start n k) k2).
  - by apply kernel_inv_sleep.
  - rewrite Hsq. apply elem_of_list_insert_ordered. by left.
  - done.
  - by rewrite Ht.
  - by rewrite Ht.
  - done.
  - done.
  - done.
Qed.

Lemma timer_sleep_never_oversleeps_witness :
  ∃ k k2 log,
    run [EvTick; EvTick; EvTick; EvTick] boot_kernel = Some k
    ∧ run [EvSwitch 1%nat; EvTick] (timer_sleep_block 0 2 k) = Some k2
    ∧ unblocked k2 = unblocked (timer_sleep_block 0 2 k) ++ log
    ∧ 0%nat ∈ log.
Proof.
  pose (K := Nat.iter 4 (exec EvTick) boot_kernel).
  assert (Hk : run [EvTick; EvTick; EvTick; EvTick] boot_kernel = Some K)
    by (vm_compute; reflexivity).
  pose (K2 := exec EvTick (exec (EvSwitch 1%nat) (timer_sleep_block 0 2 K))).
  assert (Hk2 : run [EvSwitch 1%nat; EvTick] (timer_sleep_block 0 2 K)
                = Some K2) by (vm_compute; reflexivity).
  assert (Hinv : kernel_inv K).
  { exact (kernel_inv_run _ boot_kernel K kernel_inv_boot Hk). }
  destruct (timer_sleep_never_oversleeps 0 2 K [EvSwitch 1%nat; EvTick] K2 Hinv)
    as (log & Hlog & Hin).
  - vm_compute. reflexivity.
  - lia.
  - vm_compute. split; discriminate.
  - vm_compute. discriminate.
  - exact Hk2.
  - vm_compute. discriminate.
  - vm_compute. discriminate.
  - exists K, K2, log. split; [exact Hk|]. split; [exact Hk2|].
    split; [exact Hlog|exact Hin].
Defined.

(** *** What the tick handler and [timer_sleep] leave alone *)

(** X16: the tick handler never blocks a thread and never touches one that
    does not sleep: the only threads whose status it changes are sleepers
    with a wake tick at or before the new count, which become ready; it
    leaves the wake ticks, the running thread, the interrupt level and
    [loops_per_tick] as they are, and it only ever shortens the queue. *)
Theorem timer_interrupt_frame k :
  let k' := timer_interrupt k in
  (∀ t, status_of k' t ≠ status_of k t →
        t ∈ sleeping_list k
        ∧ wake_of k t <= ticks k'
        ∧ status_of k' t = THREAD_READY)
  ∧ (∀ t, wake_of k' t = wake_of k t)
  ∧ running k' = running k
  ∧ level k' = level k
  ∧ loops_per_tick k' = loops_per_tick k
  ∧ sleeping_list k' `suffix_of` sleeping_list k.
Proof.
  cbn zeta.
  destruct (timer_interrupt_effect k)
    as ((Ht & Hsq & _ & Hl & Hr & _ & _ & Hw & Hst) & Hlev).
  split; [|split; [done|split; [done|split; [done|split; [done|]]]]].
  - intros t Hne. rewrite Hst in Hne |- *.
    destruct (decide (t ∈ due_sleepers k (wrap64 (ticks k + 1))
                            (sleeping_list k))) as [Hdue|]; [|done].
    split; [|split; [|done]].
    + rewrite <- (due_later_app k (wrap64 (ticks k + 1)) (sleeping_list k)).
      apply elem_of_app. by left.
    + rewrite Ht. by apply (due_sleepers_due k _ (sleeping_list k)).
  - rewrite Hsq. eexists. symmetry. apply due_later_app.
Qed.

(** X17: [timer_sleep (n)] with [n > 0] blocks its caller and nobody else:
    the caller gets the wake tick counter + [n] and joins the queue, which
    otherwise keeps its members; every other thread keeps its status and
    its wake tick; the counter and the record of unblocked threads are
    untouched; and interrupts are left masked for the switch to the next
    thread. *)
Theorem timer_sleep_blocks_only_caller n k :
  0 < n →
  in_int64 (ticks k + n) →
  let k' := timer_sleep n k in
  status_of k' (thread_current k) = THREAD_BLOCKED
  ∧ wake_of k' (thread_current k) = ticks k + n
  ∧ sleeping_list k' ≡ₚ thread_current k :: sleeping_list k
  ∧ (∀ t, t ≠ thread_current k →
          status_of k' t = status_of k t ∧ wake_of k' t = wake_of k t)
  ∧ ticks k' = ticks k
  ∧ unblocked k' = unblocked k
  ∧ thread_current k' = thread_current k
  ∧ intr_get_level k' = INTR_OFF.
Proof.
  intros Hn Hin. cbn zeta. rewrite timer_sleep_positive by done.
  destruct (timer_sleep_block_fields (ticks k) n k)
    as (_ & Hsq & Hw & Hst & Ht & Hun & Hr & Hl).
  rewrite Hst, Hw, Hsq, !decide_True by done.
  split; [done|]. split; [by apply wrap64_id|].
  split; [apply list_insert_ordered_perm|].
  split; [|done].
  intros t Hne. rewrite Hst, Hw, !decide_False by done. done.
Qed.

Lemma timer_sleep_blocks_only_caller_witness :
  status_of (timer_sleep 5 boot_kernel) 0%nat = THREAD_BLOCKED
  ∧ wake_of (timer_sleep 5 boot_kernel) 0%nat = 5.
Proof.
  assert (Hn : 0 < 5) by lia.
  assert (Hin : in_int64 (ticks boot_kernel + 5))
    by (vm_compute; split; discriminate).
  destruct (timer_sleep_blocks_only_caller 5 boot_kernel Hn Hin)
    as (Hst & Hw & _).
  split; [exact Hst|exact Hw].
Defined.
